(** * mcp-analytics-ts: the delivery subsystem, embedded and verified

    A shallow embedding of [src/utils.ts], [src/retry.ts], [src/client.ts]
    and [src/tracker.ts].

    Asynchronous functions become state-passing functions over a [World]
    that return an [outcome]: a promise that resolves is [Resolved v], a
    promise that rejects (or a synchronous [throw]) is [Rejected e].  The
    world holds the host application's own state and clock, the behaviour
    of the network, the pending timers and a trace of what the SDK did
    that can be seen from outside: console lines, timers, requests, and
    the calls from one component into the next: of [client.sendEvent],
    of the operation handed to the retry handler, of the wrapped
    function. *)

From Stdlib Require Import ZArith String List Lia.
From stdpp Require Import base gmap strings pretty.

#[local] Set Warnings "-register-all".
#[local] Open Scope Z_scope.

(** ** JavaScript data *)

(** JSON-like values: what a metadata object may hold. *)
Inductive JsValue : Type :=
| JNull
| JBool (b : bool)
| JNum (n : Z)
| JStr (s : string)
| JArr (items : list JsValue)
| JObj (fields : gmap string JsValue).

(** [MCPMetadata = Record<string, unknown>] (types.ts). *)
Abbreviation MCPMetadata := (gmap string JsValue).

(** [MCPEventType = 'invocation' | 'success' | 'failure']. *)
Inductive MCPEventType : Type := Invocation | Success | Failure.

Definition event_name (t : MCPEventType) : string :=
  match t with
  | Invocation => "invocation"
  | Success => "success"
  | Failure => "failure"
  end.

(** The event payload; an absent field is [None]. *)
Record MCPEventPayload : Type := mkPayload {
  tool_name : string;
  event_type : MCPEventType;
  duration_ms : option Z;
  metadata : option MCPMetadata
}.

(** A thrown value, as far as the code looks into it: [error.name],
    [error.message] (read with [?.], so it may be missing) and
    [error.status] (set by the transport on HTTP errors only). *)
Record JsError : Type := mkError {
  err_name : string;
  err_message : option string;
  err_status : option Z
}.

(** [new Error(message)]. *)
Definition Error (message : string) : JsError :=
  {| err_name := "Error"; err_message := Some message; err_status := None |}.

(** [TrackingResult]. *)
Record TrackingResult : Type := mkResult {
  success : bool;
  error : option JsError
}.

(** The acknowledgement [{ ok: boolean }] parsed from a 2xx body. *)
Record DeliveryAck : Type := mkAck { ack_ok : bool }.

(** How a promise settles. *)
Inductive outcome (A : Type) : Type :=
| Resolved (value : A)
| Rejected (reason : JsError).
Arguments Resolved {A} value.
Arguments Rejected {A} reason.

(** ** The outside world *)

(** What [fetch] gives back once headers arrive.  [resp_text = None]
    stands for a [response.text()] that rejects; [resp_json] is the
    settlement of [response.json()]. *)
Record HttpResponse : Type := mkResponse {
  resp_ok : bool;
  resp_status : Z;
  resp_statusText : string;
  resp_text : option string;
  resp_json : outcome DeliveryAck
}.

(** What the network does with one request, and after how many
    milliseconds. *)
Inductive FetchBehaviour : Type :=
| NetworkFailure (latency : Z) (reason : JsError)
| Responds (latency : Z) (response : HttpResponse).

Definition latency_of (behaviour : FetchBehaviour) : Z :=
  match behaviour with
  | NetworkFailure latency _ => latency
  | Responds latency _ => latency
  end.

(** The request handed to [fetch]; the body is kept structured instead of
    as the [JSON.stringify] text. *)
Record Request : Type := mkRequest {
  req_url : string;
  req_method : string;
  req_headers : list (string * string);
  req_body : MCPEventPayload
}.

(** Extra arguments of a console line. *)
Inductive LogArg : Type :=
| LError (e : JsError)
| LPayload (p : MCPEventPayload)
| LText (s : string)
| LAck (a : DeliveryAck).

(** What the SDK does that is visible from outside. *)
Inductive Effect : Type :=
| ELog (message : string) (args : list LogArg)  (* console.log *)
| ESetTimeout (id : nat) (delay : Z)            (* setTimeout(abort, delay) *)
| EClearTimeout (id : nat)                      (* clearTimeout(id) *)
| EAbort (id : nat)                             (* the timer fired: controller.abort() *)
| EFetch (req : Request)                        (* fetch(url, init) *)
| ESleep (delay : Z)                            (* await of setTimeout(resolve, delay) *)
| EAttempt (attempt : Z)                        (* RetryHandler.execute calls fn() *)
| ESendEvent (payload : MCPEventPayload)        (* client.sendEvent(payload) *)
| ECallFn.                                      (* the wrapped function is called *)

Section Delivery.

(** The host application's own state, opaque to the SDK. *)
Context {App : Type}.

(** What code supplied by the host application can read and change: its
    own state and, by taking time, the clock. *)
Record Host : Type := mkHost {
  clock : Z;          (* Date.now() *)
  app : App
}.

Record World : Type := mkWorld {
  host : Host;
  network : nat -> FetchBehaviour;  (* what the n-th fetch will meet *)
  fetched : nat;                    (* fetch calls issued so far *)
  next_timer : nat;                 (* next timer id *)
  timers : list (nat * Z);          (* pending abort timers: id, delay *)
  trace : list Effect               (* oldest first *)
}.

Definition set_host (h : Host) (w : World) : World :=
  {| host := h; network := network w; fetched := fetched w;
     next_timer := next_timer w; timers := timers w; trace := trace w |}.

Definition set_timers (next : nat) (ts : list (nat * Z)) (w : World) : World :=
  {| host := host w; network := network w; fetched := fetched w;
     next_timer := next; timers := ts; trace := trace w |}.

Definition record (e : Effect) (w : World) : World :=
  {| host := host w; network := network w; fetched := fetched w;
     next_timer := next_timer w; timers := timers w;
     trace := trace w ++ [e] |}.

Definition elapse (ms : Z) (w : World) : World :=
  set_host {| clock := clock (host w) + ms; app := app (host w) |} w.

(** ** Asynchronous computations *)

Definition M (A : Type) : Type := World -> outcome A * World.

Definition ret {A} (a : A) : M A := fun w => (Resolved a, w).

Definition throw {A} (e : JsError) : M A := fun w => (Rejected e, w).

Definition bind {A B} (m : M A) (k : A -> M B) : M B :=
  fun w =>
    match m w with
    | (Resolved a, w1) => k a w1
    | (Rejected e, w1) => (Rejected e, w1)
    end.

(** [try { body } catch (error) { handler }]. *)
Definition try_catch {A} (body : M A) (handler : JsError -> M A) : M A :=
  fun w =>
    match body w with
    | (Resolved a, w1) => (Resolved a, w1)
    | (Rejected e, w1) => handler e w1
    end.

(** [let x = init; try { first; rest } catch (error) { handler }] where
    [first] is the only statement that assigns [x] and [x] is read by
    [rest] and by [handler]: [first] yields the value [x] has after it,
    and [x] still has its initial value if [first] throws. *)
Definition try_catch_assigning {V A} (init : V) (first : M V)
    (rest : V -> M A) (handler : V -> JsError -> M A) : M A :=
  fun w =>
    match first w with
    | (Resolved x, w1) =>
        match rest x w1 with
        | (Resolved a, w2) => (Resolved a, w2)
        | (Rejected e, w2) => handler x e w2
        end
    | (Rejected e, w1) => handler init e w1
    end.

(** [try { body } finally { cleanup }], for a cleanup that does not throw. *)
Definition try_finally {A} (body : M A) (cleanup : World -> World) : M A :=
  fun w => let (r, w1) := body w in (r, cleanup w1).

(** A step that only changes the world. *)
Definition effect (f : World -> World) : M unit := fun w => (Resolved tt, f w).

(** A call into code of the host application. *)
Definition liftH {A} (f : Host -> outcome A * Host) : M A :=
  fun w => let (r, h) := f (host w) in (r, set_host h w).

End Delivery.

Arguments Host : clear implicits.
Arguments World : clear implicits.
Arguments M : clear implicits.

Declare Scope js_scope.
Delimit Scope js_scope with js.
Notation "'let*' x ':=' c1 'in' c2" := (bind c1 (fun x => c2))
  (at level 10, x name, c1 at level 100, c2 at level 200) : js_scope.
Notation "c1 ';;' c2" := (bind c1 (fun _ => c2))
  (at level 100, c2 at level 200, right associativity) : js_scope.
#[local] Open Scope js_scope.

(** ** src/utils.ts *)

(** [mergeMetadata(...metadatas)]: a reduce from [{}] whose step skips a
    falsy fragment and otherwise builds [{ ...acc, ...metadata }]; in the
    spread the keys of [metadata] win. *)
Definition mergeMetadata (metadatas : list (option MCPMetadata)) : MCPMetadata :=
  fold_left
    (fun acc metadata =>
       match metadata with
       | None => acc
       | Some metadata => metadata ∪ acc
       end)
    metadatas ∅.

(** [s.includes(sub)]. *)
Definition includes (s sub : string) : bool :=
  match String.index 0 sub s with
  | Some _ => true
  | None => false
  end.

(** [debugLog(debug, message, ...args)]. *)
Definition logged {App} (debug : bool) (message : string) (args : list LogArg)
    (w : World App) : World App :=
  if debug then record (ELog ("[MCPTracker] " +:+ message) args) w else w.

Definition debugLog {App} (debug : bool) (message : string) (args : list LogArg)
  : M App unit :=
  effect (logged debug message args).

(** [isRetryableError(error)]. *)
Definition isRetryableError (error : JsError) : bool :=
  (* Network errors *)
  if String.eqb (err_name error) "TypeError"
     || match err_message error with
        | Some message => includes message "fetch"
        | None => false
        end
  then true
  else
    (* HTTP errors; [if (error.status)] is false for a missing status and for 0 *)
    match err_status error with
    | Some status =>
        if negb (status =? 0) then
          if (400 <=? status) && (status <? 500) then false
          else if 500 <=? status then true
          else true
        else true
    | None => true
    end.

(** ** src/retry.ts *)

Record RetryHandler : Type := mkRetryHandler {
  maxRetries : Z;
  rh_debug : bool
}.

Section Retry.

Context {App : Type}.
#[local] Abbreviation M := (M App).

(** [await new Promise(resolve => setTimeout(resolve, delay))]. *)
Definition sleep (delay : Z) : M unit :=
  effect (fun w => elapse delay (record (ESleep delay) w)).

(** The loop [for (attempt = 0; attempt <= maxRetries; attempt++)] of
    [execute], entered at [attempt] with [remaining] values of the counter
    still to go ([remaining = 0]: the loop test fails and the line after
    the loop runs).  An iteration that neither returns nor throws falls
    through its catch block to the next one. *)
Fixpoint execute_loop {T} (this : RetryHandler) (fn : M T)
    (remaining : nat) (attempt : Z) (lastError : option JsError) : M T :=
  match remaining with
  | O =>
      throw (match lastError with
             | Some e => e
             | None => Error "Unexpected error in retry handler"
             end)
  | S remaining' =>
      try_catch
        (effect (record (EAttempt attempt)) ;; fn)
        (fun error =>
           (* Check if we should retry *)
           if negb (isRetryableError error) then
             debugLog (rh_debug this) "Non-retryable error, giving up:" [LError error] ;;
             throw error
           (* Check if we have retries left *)
           else if attempt =? maxRetries this then
             debugLog (rh_debug this)
               ("Max retries (" +:+ pretty (maxRetries this) +:+ ") reached, giving up") [] ;;
             throw error
           else
             let delay := Z.min (100 * 2 ^ attempt) 3000 in
             debugLog (rh_debug this)
               ("Retry attempt " +:+ pretty (attempt + 1) +:+ "/" +:+
                pretty (maxRetries this) +:+ " after " +:+ pretty delay +:+ "ms")
               [LError error] ;;
             sleep delay ;;
             execute_loop this fn remaining' (attempt + 1) (Some error))
  end.

(** [RetryHandler.execute(fn)]: the counter takes the values
    [0 .. maxRetries], that is [maxRetries + 1] of them (none when
    [maxRetries] is negative). *)
Definition execute {T} (this : RetryHandler) (fn : M T) : M T :=
  execute_loop this fn (Z.to_nat (maxRetries this + 1)) 0 None.

End Retry.

(** ** src/client.ts *)

(** [Required<MCPTrackerConfig>]: the configuration with defaults filled in. *)
Record Config : Type := mkConfig {
  apiKey : string;
  endpoint : string;
  timeout : Z;
  retries : Z;
  debug : bool
}.

Record APIClient : Type := mkAPIClient {
  client_config : Config;
  retryHandler : RetryHandler
}.

(** [new APIClient(config)]. *)
Definition new_APIClient (config : Config) : APIClient :=
  {| client_config := config;
     retryHandler := {| maxRetries := retries config; rh_debug := debug config |} |}.

(** The rejection of a [fetch] whose signal was aborted. *)
Definition AbortError : JsError :=
  {| err_name := "AbortError";
     err_message := Some "This operation was aborted";
     err_status := None |}.

Section Client.

Context {App : Type}.
#[local] Abbreviation M := (M App).

(** The delay after which the host fires a timer armed with [delay]
    milliseconds: the host keeps the delay in a signed 32-bit integer, and
    a delay above [2^31 - 1] is replaced by 1 ms.  (The host also raises a
    delay below 1 ms to 1 ms; that is left out, the configured timeout
    being a positive whole number of milliseconds.) *)
Definition timer_delay (delay : Z) : Z :=
  if 2147483647 <? delay then 1 else delay.

(** [setTimeout(() => controller.abort(), delay)]: the timer is pending
    until it fires or is cleared. *)
Definition setTimeout (delay : Z) : M nat :=
  fun w =>
    let id := next_timer w in
    (Resolved id,
     record (ESetTimeout id delay)
       (set_timers (S id) ((id, timer_delay delay) :: timers w) w)).

Definition drop_timer (id : nat) (ts : list (nat * Z)) : list (nat * Z) :=
  List.filter (fun t => negb (Nat.eqb (fst t) id)) ts.

(** [clearTimeout(id)]; clearing a timer that is no longer pending does
    nothing. *)
Definition clearTimeout (id : nat) (w : World App) : World App :=
  record (EClearTimeout id) (set_timers (next_timer w) (drop_timer id (timers w)) w).

Definition pending_delay (id : nat) (ts : list (nat * Z)) : option Z :=
  snd <$> find (fun t => Nat.eqb (fst t) id) ts.

Definition issue (req : Request) (w : World App) : World App :=
  record (EFetch req)
    {| host := host w; network := network w; fetched := S (fetched w);
       next_timer := next_timer w; timers := timers w; trace := trace w |}.

(** [await fetch(url, { ..., signal })] where [signal] belongs to the
    controller that timer [signal] aborts.  The request meets the next
    behaviour of the network; when the timer's delay is shorter than the
    latency the timer fires first, the request is cancelled and the
    promise rejects with an [AbortError]. *)
Definition fetch (req : Request) (signal : nat) : M HttpResponse :=
  fun w =>
    let behaviour := network w (fetched w) in
    let latency := latency_of behaviour in
    let w1 := issue req w in
    match pending_delay signal (timers w1) with
    | Some delay =>
        if delay <? latency then
          (Rejected AbortError,
           record (EAbort signal)
             (elapse delay
                (set_timers (next_timer w1) (drop_timer signal (timers w1)) w1)))
        else
          match behaviour with
          | NetworkFailure _ reason => (Rejected reason, elapse latency w1)
          | Responds _ response => (Resolved response, elapse latency w1)
          end
    | None =>
        match behaviour with
        | NetworkFailure _ reason => (Rejected reason, elapse latency w1)
        | Responds _ response => (Resolved response, elapse latency w1)
        end
    end.

(** The [try] block of the operation [sendEvent] hands to the retry
    handler. *)
Definition send_request (this : APIClient) (payload : MCPEventPayload)
    (timeoutId : nat) : M DeliveryAck :=
  let config := client_config this in
  let* response :=
    fetch {| req_url := endpoint config;
             req_method := "POST";
             req_headers := [("Content-Type", "application/json");
                             ("x-api-key", apiKey config)];
             req_body := payload |} timeoutId in
  effect (clearTimeout timeoutId) ;;
  (* Handle specific HTTP errors *)
  if negb (resp_ok response) then
    (* response.text().catch(() => '') *)
    let errorBody := default "" (resp_text response) in
    let error :=
      {| err_name := "Error";
         err_message :=
           Some ("HTTP " +:+ pretty (resp_status response) +:+ ": " +:+
                 (if String.eqb errorBody "" then resp_statusText response
                  else errorBody));
         err_status := Some (resp_status response) |} in
    (if resp_status response =? 401 then
       debugLog (debug config) "Invalid API key" []
     else if resp_status response =? 400 then
       debugLog (debug config) "Invalid payload:" [LText errorBody]
     else if resp_status response =? 429 then
       debugLog (debug config) "Rate limit exceeded" []
     else ret tt) ;;
    throw error
  else
    let* data := (fun w => (resp_json response, w)) in
    debugLog (debug config) "Event sent successfully:" [LAck data] ;;
    ret data.

(** Its [catch] block. *)
Definition on_send_error (this : APIClient) (error : JsError) : M DeliveryAck :=
  let config := client_config this in
  if String.eqb (err_name error) "AbortError" then
    debugLog (debug config)
      ("Request timeout after " +:+ pretty (timeout config) +:+ "ms") [] ;;
    throw (Error ("Request timeout after " +:+ pretty (timeout config) +:+ "ms"))
  else throw error.

(** The operation itself, one delivery attempt: the timer is armed, the
    request runs inside [try]/[catch], and [finally] clears the timer. *)
Definition send_attempt (this : APIClient) (payload : MCPEventPayload)
  : M DeliveryAck :=
  let config := client_config this in
  debugLog (debug config) "Sending event:" [LPayload payload] ;;
  let* timeoutId := setTimeout (timeout config) in
  try_finally
    (try_catch (send_request this payload timeoutId) (on_send_error this))
    (clearTimeout timeoutId).

(** [APIClient.sendEvent(payload)]. *)
Definition sendEvent (this : APIClient) (payload : MCPEventPayload)
  : M DeliveryAck :=
  effect (record (ESendEvent payload)) ;;
  execute (retryHandler this) (send_attempt this payload).

End Client.

(** ** src/tracker.ts *)

(** [MCPTrackerConfig]: what the caller passes; all but [apiKey] optional. *)
Record MCPTrackerConfig : Type := mkTrackerConfig {
  cfg_apiKey : string;
  cfg_endpoint : option string;
  cfg_timeout : option Z;
  cfg_retries : option Z;
  cfg_debug : option bool
}.

Definition DEFAULT_ENDPOINT : string :=
  "https://dersubrqatbvvmzwkmsj.supabase.co/functions/v1/track-mcp-event".

Record MCPTracker : Type := mkTracker {
  client : APIClient;
  config : Config
}.

(** [new MCPTracker(config)]: [||] also replaces an empty endpoint, [??]
    only a missing value. *)
Definition new_MCPTracker (c : MCPTrackerConfig) : MCPTracker :=
  let resolved :=
    {| apiKey := cfg_apiKey c;
       endpoint := match cfg_endpoint c with
                   | Some e => if String.eqb e "" then DEFAULT_ENDPOINT else e
                   | None => DEFAULT_ENDPOINT
                   end;
       timeout := default 5000 (cfg_timeout c);
       retries := default 3 (cfg_retries c);
       debug := default false (cfg_debug c) |} in
  {| client := new_APIClient resolved; config := resolved |}.

Section Tracker.

Context {App : Type}.
#[local] Abbreviation M := (M App).

(** [MCPTracker.track(toolName, eventType, metadata?, durationMs?)].
    The two conditional spreads add [duration_ms] when [durationMs] is not
    [undefined] and [metadata] when it is truthy, which every object is,
    the empty one included. *)
Definition track (this : MCPTracker) (toolName : string) (eventType : MCPEventType)
    (metadata : option MCPMetadata) (durationMs : option Z) : M TrackingResult :=
  try_catch
    (let payload :=
       {| tool_name := toolName;
          event_type := eventType;
          duration_ms := match durationMs with
                         | Some d => Some d
                         | None => None
                         end;
          metadata := match metadata with
                      | Some m => Some m
                      | None => None
                      end |} in
     sendEvent (client this) payload ;;
     ret {| success := true; error := None |})
    (fun error =>
       debugLog (debug (config this))
         ("Failed to track " +:+ event_name eventType +:+ " event for " +:+
          toolName +:+ ":") [LError error] ;;
       ret {| success := false; error := Some error |}).

Definition trackInvocation (this : MCPTracker) (toolName : string)
    (metadata : option MCPMetadata) : M TrackingResult :=
  track this toolName Invocation metadata None.

Definition trackSuccess (this : MCPTracker) (toolName : string)
    (metadata : option MCPMetadata) (durationMs : option Z) : M TrackingResult :=
  track this toolName Success metadata durationMs.

Definition trackFailure (this : MCPTracker) (toolName : string)
    (metadata : option MCPMetadata) (durationMs : option Z) : M TrackingResult :=
  track this toolName Failure metadata durationMs.

(** [Date.now()]. *)
Definition dateNow : M Z := fun w => (Resolved (clock (host w)), w).

Context {TParams TMeta TResult : Type}.

(** Code of the host application: it runs on the host's state, takes
    time, and resolves or throws. *)
Definition HostFn (A : Type) : Type := Host App -> outcome A * Host App.

(** [WrapOptions]; a missing option is [None]. *)
Record WrapOptions : Type := mkWrapOptions {
  getMetadata : option (TParams -> option TMeta -> HostFn MCPMetadata);
  getOutputMetadata : option (TResult -> HostFn MCPMetadata);
  getErrorMetadata : option (JsError -> HostFn MCPMetadata);
  opt_trackInvocation : option bool;
  opt_rethrowErrors : option bool
}.

(** [options = {}]. *)
Definition no_options : WrapOptions :=
  {| getMetadata := None; getOutputMetadata := None; getErrorMetadata := None;
     opt_trackInvocation := None; opt_rethrowErrors := None |}.

(** An extractor call inside its own [try]/[catch]: the variable it
    assigns stays [undefined] when the extractor is missing or throws. *)
Definition extract (this : MCPTracker) (what : string) (toolName : string)
    (call : option (HostFn MCPMetadata)) : M (option MCPMetadata) :=
  match call with
  | Some call =>
      try_catch
        (let* m := liftH call in ret (Some m))
        (fun error =>
           debugLog (debug (config this))
             ("Error getting " +:+ what +:+ " for " +:+ toolName +:+ ":")
             [LError error] ;;
           ret None)
  | None => ret None
  end.

(** [MCPTracker.wrap(toolName, fn, options)]: the function it returns,
    whose result is [None] for [undefined].  [invocationMetadata] is
    declared before the outer [try], assigned by its first statement (the
    [getMetadata] step) and read again in the [catch] block. *)
Definition wrap (this : MCPTracker) (toolName : string)
    (fn : TParams -> option TMeta -> HostFn TResult) (options : WrapOptions)
    (params : TParams) (meta : option TMeta) : M (option TResult) :=
  let shouldTrackInvocation := default true (opt_trackInvocation options) in
  let rethrowErrors := default true (opt_rethrowErrors options) in
  let* startTime := dateNow in
  try_catch_assigning None
    ((* Get initial metadata *)
     extract this "metadata" toolName
       ((fun g => g params meta) <$> getMetadata options))
    (fun invocationMetadata =>
       (* Track invocation *)
       (if shouldTrackInvocation
        then trackInvocation this toolName invocationMetadata ;; ret tt
        else ret tt) ;;
       (* Execute the function *)
       let* result := (effect (record ECallFn) ;; liftH (fn params meta)) in
       let* now := dateNow in
       let duration := now - startTime in
       (* Get output metadata *)
       let* outputMetadata :=
         extract this "output metadata" toolName
           ((fun g => g result) <$> getOutputMetadata options) in
       (* Track success *)
       let successMetadata := mergeMetadata [invocationMetadata; outputMetadata] in
       trackSuccess this toolName (Some successMetadata) (Some duration) ;;
       ret (Some result))
    (fun invocationMetadata error =>
       let* now := dateNow in
       let duration := now - startTime in
       (* Get error metadata *)
       let* errorMetadata :=
         extract this "error metadata" toolName
           ((fun g => g error) <$> getErrorMetadata options) in
       (* Track failure *)
       let failureMetadata := mergeMetadata [invocationMetadata; errorMetadata] in
       trackFailure this toolName (Some failureMetadata) (Some duration) ;;
       (* Rethrow the original error *)
       if rethrowErrors then throw error
       (* If not rethrowing, return undefined *)
       else ret None).

End Tracker.

Arguments WrapOptions : clear implicits.
Arguments HostFn : clear implicits.

(** * Reading the trace *)

Definition is_attempt (e : Effect) : bool :=
  match e with EAttempt _ => true | _ => false end.

Definition is_engine (e : Effect) : bool :=
  match e with EAttempt _ | ESleep _ => true | _ => false end.

(** How many times the retry handler called its operation. *)
Definition attempts (tr : list Effect) : nat :=
  length (List.filter is_attempt tr).

(** What the retry handler itself did: its calls of the operation and
    its waits, in order. *)
Definition engine_view (tr : list Effect) : list Effect :=
  List.filter is_engine tr.

(** A computation that leaves an observation of the world as it was. *)
Definition preserves {App X T} (f : World App -> X) (m : M App T) : Prop :=
  forall w, f (snd (m w)) = f w.

(** A computation that records no event of the selected kind. *)
Definition silent {App T} (sel : Effect -> bool) (m : M App T) : Prop :=
  preserves (fun w => List.filter sel (trace w)) m.

(** An operation that records no call or wait of the retry handler: the
    ones in the trace are the handler's own. *)
Definition keeps_engine_view {App T} (fn : M App T) : Prop :=
  forall w, engine_view (trace (snd (fn w))) = engine_view (trace w).

(** The delay the specification gives for the wait after attempt [i]. *)
Definition backoff_delay (i : Z) : Z := Z.min (100 * 2 ^ i) 3000.

(** [n] attempts numbered from [first], with the specified wait between
    one and the next and none after the last. *)
Fixpoint schedule (first : Z) (n : nat) : list Effect :=
  match n with
  | O => []
  | S O => [EAttempt first]
  | S n' => EAttempt first :: ESleep (backoff_delay first) :: schedule (first + 1) n'
  end.

(** The world in which the handler goes on after the call numbered
    [attempt] failed with [e] in [w1] and is retried: the retry is logged
    and the delay is waited. *)
Definition retry_world {App} (this : RetryHandler) (attempt : Z) (e : JsError)
    (w1 : World App) : World App :=
  let delay := Z.min (100 * 2 ^ attempt) 3000 in
  elapse delay
    (record (ESleep delay)
       (logged (rh_debug this)
          ("Retry attempt " +:+ pretty (attempt + 1) +:+ "/" +:+
           pretty (maxRetries this) +:+ " after " +:+ pretty delay +:+ "ms")
          [LError e] w1)).

(** The world in which the handler, having entered its loop in [w] with
    the counter at [first], makes call number [i] (from 0) of [fn], when
    each call before it was retried. *)
Fixpoint call_world {App T} (this : RetryHandler) (fn : M App T) (first : Z)
    (i : nat) (w : World App) : World App :=
  match i with
  | O => record (EAttempt first) w
  | S j =>
      match fn (record (EAttempt first) w) with
      | (Rejected e, w1) => call_world this fn (first + 1) j (retry_world this first e w1)
      | (Resolved _, w1) => w1
      end
  end.

(** The first [k] calls of a run that enters the loop in [w] with the
    counter at [first] each fail with an error the classifier finds
    retryable. *)
Definition retried_before {App T} (this : RetryHandler) (fn : M App T) (first : Z)
    (w : World App) (k : nat) : Prop :=
  forall i : nat, (i < k)%nat ->
    exists e w1, fn (call_world this fn first i w) = (Rejected e, w1)
                 /\ isRetryableError e = true.

(** Call number [k] of such a run is not retried: it succeeds, or fails
    with an error the classifier refuses, or is the call with the counter
    at [maxRetries]. *)
Definition ends_at {App T} (this : RetryHandler) (fn : M App T) (first : Z)
    (w : World App) (k : nat) : Prop :=
  match fst (fn (call_world this fn first k w)) with
  | Resolved _ => True
  | Rejected e => isRetryableError e = false \/ first + Z.of_nat k = maxRetries this
  end.

(** The pending timers other than [id]. *)
Definition other_timers {App} (id : nat) (w : World App) : list (nat * Z) :=
  drop_timer id (timers w).

(** What one delivery attempt records: console lines, the abort timer
    and the request. *)
Definition is_transport (e : Effect) : bool :=
  match e with
  | ELog _ _ | ESetTimeout _ _ | EClearTimeout _ | EAbort _ | EFetch _ => true
  | _ => false
  end.

(** What the retry handler records besides: its calls, its waits and its
    console lines. *)
Definition is_retry (e : Effect) : bool :=
  match e with
  | ELog _ _ | ESleep _ | EAttempt _ => true
  | _ => false
  end.

(** Where the tracker meets its surroundings: the deliveries it asks of
    the client and its calls of the wrapped function, in order. *)
Definition is_boundary (e : Effect) : bool :=
  match e with
  | ESendEvent _ | ECallFn => true
  | _ => false
  end.

Definition boundary_view (tr : list Effect) : list Effect :=
  List.filter is_boundary tr.

(** The payload [track] builds from its arguments. *)
Definition payload_of (toolName : string) (eventType : MCPEventType)
    (metadata : option MCPMetadata) (durationMs : option Z) : MCPEventPayload :=
  {| tool_name := toolName; event_type := eventType;
     duration_ms := durationMs; metadata := metadata |}.

(** A tracking call that resolves, and whose result tells how the
    delivery of [payload] went: [{success: true}] when it resolved,
    [{success: false, error}] with its error when it rejected. *)
Definition reports {App} (this : MCPTracker) (payload : MCPEventPayload)
    (call : M App TrackingResult) (w : World App) : Prop :=
  exists result w',
    call w = (Resolved result, w') /\
    match fst (sendEvent (client this) payload w) with
    | Resolved _ => result = {| success := true; error := None |}
    | Rejected e => result = {| success := false; error := Some e |}
    end.

(** What an extractor contributes when called in host state [h]: its
    result, or nothing when it is missing or throws. *)
Definition fragment_of {App} (call : option (HostFn App MCPMetadata))
    (h : Host App) : option MCPMetadata :=
  match call with
  | None => None
  | Some call =>
      match fst (call h) with
      | Resolved m => Some m
      | Rejected _ => None
      end
  end.

(** An extractor that contributes nothing when called in host state [h]:
    it is missing, it throws, or it returns the empty object. *)
Definition contributes_nothing {App} (call : option (HostFn App MCPMetadata))
    (h : Host App) : Prop :=
  match call with
  | None => True
  | Some call =>
      match fst (call h) with
      | Resolved m => m = ∅
      | Rejected _ => True
      end
  end.

Definition rejected {A} (o : outcome A) : bool :=
  match o with
  | Rejected _ => true
  | Resolved _ => false
  end.

(** The value a fragment holds under a key; an [undefined] fragment holds
    none. *)
Definition fragment_lookup (fragment : option MCPMetadata) (k : string)
  : option JsValue :=
  match fragment with
  | Some m => m !! k
  | None => None
  end.

(** A computation that adds exactly the events [evs] to a view. *)
Definition appends {App T} (sel : Effect -> bool) (evs : list Effect)
    (m : M App T) : Prop :=
  forall w, List.filter sel (trace (snd (m w))) = List.filter sel (trace w) ++ evs.

Definition is_fetch (e : Effect) : bool :=
  match e with EFetch _ => true | _ => false end.

Definition is_log (e : Effect) : bool :=
  match e with ELog _ _ => true | _ => false end.

(** The requests sent, in order. *)
Definition requests (tr : list Effect) : list Effect :=
  List.filter is_fetch tr.

(** Deliveries, calls of the wrapped function and requests, in order. *)
Definition is_exchange (e : Effect) : bool :=
  is_boundary e || is_fetch e.

(** The request [sendEvent] builds for a payload. *)
Definition request_of (config : Config) (payload : MCPEventPayload) : Request :=
  {| req_url := endpoint config;
     req_method := "POST";
     req_headers := [("Content-Type", "application/json");
                     ("x-api-key", apiKey config)];
     req_body := payload |}.

(** The error the transport builds from a response that is not [ok]. *)
Definition http_error (response : HttpResponse) : JsError :=
  {| err_name := "Error";
     err_message :=
       Some ("HTTP " +:+ pretty (resp_status response) +:+ ": " +:+
             match resp_text response with
             | Some body => if String.eqb body "" then resp_statusText response
                            else body
             | None => resp_statusText response
             end);
     err_status := Some (resp_status response) |}.

(** The value the last fragment that has key [k] holds under it. *)
Fixpoint last_defined (fragments : list (option MCPMetadata)) (k : string)
  : option JsValue :=
  match fragments with
  | [] => None
  | fragment :: rest =>
      match last_defined rest k with
      | Some v => Some v
      | None => fragment_lookup fragment k
      end
  end.

(** A tracker none of whose parts has debug mode on. *)
Definition debug_off (this : MCPTracker) : Prop :=
  debug (config this) = false
  /\ debug (client_config (client this)) = false
  /\ rh_debug (retryHandler (client this)) = false.

(** Every pending timer has an id that was handed out already. *)
Definition timers_fresh {App} (w : World App) : Prop :=
  Forall (fun t => (fst t < next_timer w)%nat) (timers w).

(** The world in which a wrapped call calls its function: after the
    [getMetadata] step and, when enabled, the invocation event. *)
Definition before_call {App TParams TMeta TResult} (this : MCPTracker)
    (toolName : string) (options : WrapOptions App TParams TMeta TResult)
    (params : TParams) (meta : option TMeta) (w : World App) : World App :=
  let getM := (fun g => g params meta) <$> getMetadata options in
  let w1 := snd (extract this "metadata" toolName getM w) in
  if default true (opt_trackInvocation options)
  then snd (trackInvocation this toolName (fragment_of getM (host w)) w1)
  else w1.

(** * Sample inputs *)

Definition ok_response : HttpResponse :=
  {| resp_ok := true; resp_status := 200; resp_statusText := "OK";
     resp_text := Some "ok";
     resp_json := Resolved {| ack_ok := true |} |}.

(** A 400 whose body happens to contain the word fetch. *)
Definition bad_request_response : HttpResponse :=
  {| resp_ok := false; resp_status := 400; resp_statusText := "Bad Request";
     resp_text := Some "cannot fetch account";
     resp_json := Rejected (Error "Unexpected token") |}.

Definition fetch_failed : JsError :=
  {| err_name := "TypeError"; err_message := Some "fetch failed";
     err_status := None |}.

Definition server_error : JsError :=
  {| err_name := "Error"; err_message := Some "Server Error";
     err_status := Some 500 |}.

(** The error the transport builds from [bad_request_response]. *)
Definition bad_request_error : JsError :=
  {| err_name := "Error";
     err_message := Some "HTTP 400: cannot fetch account";
     err_status := Some 400 |}.

(** Networks: every request answered with 200 after 20 ms; every request
    failing at connection level; every request answered with the 400
    above; every request answered after 9 s. *)
Definition healthy_network : nat -> FetchBehaviour := fun _ => Responds 20 ok_response.
Definition dead_network : nat -> FetchBehaviour := fun _ => NetworkFailure 5 fetch_failed.
Definition rejecting_network : nat -> FetchBehaviour :=
  fun _ => Responds 20 bad_request_response.
Definition slow_network : nat -> FetchBehaviour := fun _ => Responds 9000 ok_response.

Definition world_on (net : nat -> FetchBehaviour) : World unit :=
  {| host := {| clock := 1000; app := tt |};
     network := net; fetched := 0; next_timer := 0; timers := []; trace := [] |}.

(** [new MCPTracker({ apiKey: 'test-key' })]. *)
Definition sample_tracker : MCPTracker :=
  new_MCPTracker {| cfg_apiKey := "test-key"; cfg_endpoint := None;
                    cfg_timeout := None; cfg_retries := None; cfg_debug := None |}.

(** [new RetryHandler(2, false)]. *)
Definition sample_retry : RetryHandler := {| maxRetries := 2; rh_debug := false |}.

(** Operations for the retry handler: one that always rejects with a
    500, and operations of an application that counts their calls in its
    own state and answers call [n] with [script n]; of these, one that
    rejects with a 500 on its first two calls and then resolves. *)
Definition always_failing : M unit Z := fun w => (Rejected server_error, w).

Definition scripted (script : nat -> outcome Z) : M nat Z :=
  liftH (fun h => (script (app h), {| clock := clock h + 1; app := S (app h) |})).

Definition fails_twice : M nat Z :=
  scripted (fun n => if (n <? 2)%nat then Rejected server_error else Resolved 42).

Definition counting_world : World nat :=
  {| host := {| clock := 1000; app := 0%nat |};
     network := fun _ => NetworkFailure 5 {| err_name := "TypeError";
                                             err_message := Some "fetch failed";
                                             err_status := None |};
     fetched := 0; next_timer := 0; timers := []; trace := [] |}.

(** Wrapped functions: one that takes 100 ms and resolves, one that takes
    7 ms and rejects. *)
Definition sample_fn : Z -> option Z -> HostFn unit Z :=
  fun params meta h =>
    (Resolved (params + 1), {| clock := clock h + 100; app := app h |}).

Definition failing_fn : Z -> option Z -> HostFn unit Z :=
  fun params meta h =>
    (Rejected (Error "boom"), {| clock := clock h + 7; app := app h |}).

(** Options whose three extractors all throw. *)
Definition broken_options : WrapOptions unit Z Z Z :=
  {| getMetadata := Some (fun _ _ h => (Rejected (Error "bad extractor"), h));
     getOutputMetadata := Some (fun _ h => (Rejected (Error "bad extractor"), h));
     getErrorMetadata := Some (fun _ h => (Rejected (Error "bad extractor"), h));
     opt_trackInvocation := None; opt_rethrowErrors := None |}.

(** Configurations with [retries: 0] and with [retries: -1]. *)
Definition no_retry_config : MCPTrackerConfig :=
  {| cfg_apiKey := "test-key"; cfg_endpoint := None; cfg_timeout := None;
     cfg_retries := Some 0; cfg_debug := None |}.

Definition negative_retry_config : MCPTrackerConfig :=
  {| cfg_apiKey := "test-key"; cfg_endpoint := None; cfg_timeout := None;
     cfg_retries := Some (-1); cfg_debug := None |}.

(** A 401 response, and an operation that rejects with a 500 on its
    first call and with the error of the 401 afterwards; a network that
    answers the first request with a 500 and the others with the 401. *)
Definition unauthorized_response : HttpResponse :=
  {| resp_ok := false; resp_status := 401; resp_statusText := "Unauthorized";
     resp_text := Some "Invalid API key";
     resp_json := Rejected (Error "Unexpected token") |}.

Definition refusing_after_one : M nat Z :=
  scripted (fun n => if (n <? 1)%nat then Rejected server_error
                     else Rejected (http_error unauthorized_response)).

Definition refusing_network : nat -> FetchBehaviour :=
  fun n =>
    if (n <? 1)%nat then
      Responds 20 {| resp_ok := false; resp_status := 500;
                     resp_statusText := "Internal Server Error";
                     resp_text := Some "try again";
                     resp_json := Rejected (Error "Unexpected token") |}
    else Responds 20 unauthorized_response.

(** [{ apiKey: 'test-key', timeout: 2147483648 }], a timeout one above
    the largest delay a timer takes, and a network that answers every
    request with 200 after 300 ms. *)
Definition overflowing_config : MCPTrackerConfig :=
  {| cfg_apiKey := "test-key"; cfg_endpoint := None;
     cfg_timeout := Some 2147483648; cfg_retries := None; cfg_debug := None |}.

Definition steady_network : nat -> FetchBehaviour := fun _ => Responds 300 ok_response.

(** [{ trackInvocation: false }]. *)
Definition untracked_options : WrapOptions unit Z Z Z :=
  {| getMetadata := None; getOutputMetadata := None; getErrorMetadata := None;
     opt_trackInvocation := Some false; opt_rethrowErrors := None |}.

(** A world with one timer of some other component pending. *)
Definition world_with_timer : World unit :=
  {| host := {| clock := 1000; app := tt |};
     network := dead_network; fetched := 0; next_timer := 4;
     timers := [(2%nat, 60000)]; trace := [] |}.

(** * Properties *)

(** ** Metadata merge *)

Lemma mergeMetadata_pair (a b : option MCPMetadata) :
  mergeMetadata [a; b] = default ∅ b ∪ default ∅ a.
Proof.
  unfold mergeMetadata. destruct a as [a|], b as [b|]; simpl.
  - by rewrite (right_id_L ∅ (∪) a).
  - by rewrite (left_id_L ∅ (∪)), (right_id_L ∅ (∪) a).
  - by rewrite !(right_id_L ∅ (∪) b).
  - by rewrite (left_id_L ∅ (∪)).
Qed.

Lemma mergeMetadata_lookup (a b : option MCPMetadata) (k : string) :
  mergeMetadata [a; b] !! k =
  match fragment_lookup b k with
  | Some v => Some v
  | None => fragment_lookup a k
  end.
Proof.
  rewrite mergeMetadata_pair, lookup_union.
  destruct a as [a|], b as [b|]; simpl; rewrite ?lookup_empty;
    try destruct (b !! k); try destruct (a !! k); reflexivity.
Qed.

(** C9. The merge of two fragments is a shallow union: under every key it
    holds the later fragment's value when the later fragment has the key,
    whole and as it is (an object under that key replaces the earlier
    one, their fields are not combined), and the earlier fragment's value
    otherwise; an undefined fragment adds nothing.  So
    merge({a:1,b:2},{b:3,c:4}) = {a:1,b:3,c:4},
    merge(undefined,{x:1}) = {x:1} and merge(undefined,undefined) = {}. *)
Theorem mergeMetadata_shallow_union :
  (forall (a b : option MCPMetadata) (k : string),
      mergeMetadata [a; b] !! k =
      match fragment_lookup b k with
      | Some v => Some v
      | None => fragment_lookup a k
      end)
  /\ (forall b : MCPMetadata, mergeMetadata [None; Some b] = b)
  /\ (forall a : MCPMetadata, mergeMetadata [Some a; None] = a)
  /\ mergeMetadata [Some {[ "a" := JNum 1; "b" := JNum 2 ]};
                    Some {[ "b" := JNum 3; "c" := JNum 4 ]}]
     = {[ "a" := JNum 1; "b" := JNum 3; "c" := JNum 4 ]}
  /\ mergeMetadata [None; Some {[ "x" := JNum 1 ]}] = {[ "x" := JNum 1 ]}
  /\ mergeMetadata [None; None] = ∅
  /\ mergeMetadata
       [Some {[ "o" := JObj {[ "p" := JNum 1; "q" := JNum 2 ]} ]};
        Some {[ "o" := JObj {[ "q" := JNum 3 ]} ]}]
     = {[ "o" := JObj {[ "q" := JNum 3 ]} ]}.
Proof.
  split; [exact mergeMetadata_lookup|].
  split; [intros b; rewrite mergeMetadata_pair; simpl; apply (right_id_L ∅ (∪))|].
  split; [intros a; rewrite mergeMetadata_pair; simpl; apply (left_id_L ∅ (∪))|].
  repeat split; apply map_eq; intros k; rewrite mergeMetadata_lookup; simpl;
    repeat (rewrite lookup_insert; case_decide; subst; simpl; try reflexivity);
    rewrite ?lookup_empty; try reflexivity.
Qed.

(** ** The retry handler *)

Section RetryFacts.

Context {App T : Type}.
Implicit Types (w : World App) (fn : M App T) (this : RetryHandler).

Lemma engine_view_app (a b : list Effect) :
  engine_view (a ++ b) = engine_view a ++ engine_view b.
Proof. apply List.filter_app. Qed.

Lemma attempts_app (a b : list Effect) :
  attempts (a ++ b) = (attempts a + attempts b)%nat.
Proof. unfold attempts. by rewrite List.filter_app, length_app. Qed.

Lemma attempts_snoc (tr : list Effect) (e : Effect) :
  attempts (tr ++ [e]) = ((if is_attempt e then 1 else 0) + attempts tr)%nat.
Proof. rewrite attempts_app. unfold attempts. simpl. destruct (is_attempt e); simpl; lia. Qed.

Lemma attempts_engine_view (tr : list Effect) :
  attempts (engine_view tr) = attempts tr.
Proof.
  unfold attempts, engine_view.
  induction tr as [|e tr IH]; [done|].
  destruct e; simpl; rewrite ?IH; reflexivity.
Qed.

Lemma keeps_attempts fn w :
  keeps_engine_view fn -> attempts (trace (snd (fn w))) = attempts (trace w).
Proof.
  intros H. by rewrite <- attempts_engine_view, H, attempts_engine_view.
Qed.

Lemma trace_logged debug message args w :
  engine_view (trace (logged debug message args w)) = engine_view (trace w).
Proof.
  unfold logged. destruct debug; [|done].
  simpl. rewrite engine_view_app. simpl. by rewrite app_nil_r.
Qed.

(** One iteration of the loop, spelled out. *)
Lemma execute_loop_step this fn remaining attempt lastError w :
  execute_loop this fn (S remaining) attempt lastError w =
  match fn (record (EAttempt attempt) w) with
  | (Resolved v, w1) => (Resolved v, w1)
  | (Rejected error, w1) =>
      if negb (isRetryableError error) then
        (Rejected error,
         logged (rh_debug this) "Non-retryable error, giving up:" [LError error] w1)
      else if attempt =? maxRetries this then
        (Rejected error,
         logged (rh_debug this)
           ("Max retries (" +:+ pretty (maxRetries this) +:+ ") reached, giving up") [] w1)
      else
        execute_loop this fn remaining (attempt + 1) (Some error)
          (elapse (Z.min (100 * 2 ^ attempt) 3000)
             (record (ESleep (Z.min (100 * 2 ^ attempt) 3000))
                (logged (rh_debug this)
                   ("Retry attempt " +:+ pretty (attempt + 1) +:+ "/" +:+
                    pretty (maxRetries this) +:+ " after " +:+
                    pretty (Z.min (100 * 2 ^ attempt) 3000) +:+ "ms")
                   [LError error] w1)))
  end.
Proof.
  cbn [execute_loop]. unfold try_catch, bind, effect at 1.
  destruct (fn (record (EAttempt attempt) w)) as [[v|error] w1]; [done|].
  destruct (isRetryableError error); cbn [negb]; [|done].
  destruct (attempt =? maxRetries this); done.
Qed.

Lemma attempts_logged debug message args w :
  attempts (trace (logged debug message args w)) = attempts (trace w).
Proof. by rewrite <- attempts_engine_view, trace_logged, attempts_engine_view. Qed.

Lemma attempts_called fn attempt w r w1 :
  keeps_engine_view fn ->
  fn (record (EAttempt attempt) w) = (r, w1) ->
  attempts (trace w1) = S (attempts (trace w)).
Proof.
  intros Hfn Hrun.
  pose proof (keeps_attempts fn (record (EAttempt attempt) w) Hfn) as H.
  rewrite Hrun in H. simpl in H. by rewrite H, attempts_snoc.
Qed.

Lemma engine_view_called fn attempt w r w1 :
  keeps_engine_view fn ->
  fn (record (EAttempt attempt) w) = (r, w1) ->
  engine_view (trace w1) = engine_view (trace w) ++ [EAttempt attempt].
Proof.
  intros Hfn Hrun.
  pose proof (Hfn (record (EAttempt attempt) w)) as H.
  rewrite Hrun in H. simpl in H. by rewrite H, engine_view_app.
Qed.

Lemma schedule_next (first : Z) (n : nat) :
  n <> O ->
  schedule first (S n) =
  EAttempt first :: ESleep (backoff_delay first) :: schedule (first + 1) n.
Proof. destruct n; [done|reflexivity]. Qed.

Lemma attempts_schedule (first : Z) (n : nat) : attempts (schedule first n) = n.
Proof.
  revert first. induction n as [|n IH]; intros first; [done|].
  destruct n as [|n]; [done|].
  rewrite schedule_next by done.
  change (attempts (EAttempt first :: ESleep (backoff_delay first)
                      :: schedule (first + 1) (S n)))
    with (S (attempts (schedule (first + 1) (S n)))).
  by rewrite IH.
Qed.

(** The handler's calls and waits follow the schedule, as long as the
    counter and the number of iterations left agree with [maxRetries]. *)
Lemma execute_loop_schedule this fn :
  keeps_engine_view fn ->
  forall remaining attempt lastError w,
    (remaining <> O -> maxRetries this = attempt + Z.of_nat remaining - 1) ->
    exists n : nat,
      (n <= remaining)%nat /\ (remaining <> O -> n <> O) /\
      engine_view (trace (snd (execute_loop this fn remaining attempt lastError w)))
      = engine_view (trace w) ++ schedule attempt n.
Proof.
  intros Hfn. induction remaining as [|remaining IH]; intros attempt lastError w Hinv.
  - exists O. simpl. by rewrite app_nil_r.
  - rewrite execute_loop_step.
    destruct (fn (record (EAttempt attempt) w)) as [[v|e] w1] eqn:Hrun;
      pose proof (engine_view_called _ _ _ _ _ Hfn Hrun) as Hview.
    { exists 1%nat. simpl. split; [lia|]. by split. }
    destruct (isRetryableError e); cbn [negb].
    2:{ exists 1%nat. simpl. rewrite trace_logged. split; [lia|]. by split. }
    destruct (Z.eqb_spec attempt (maxRetries this)) as [Heq|Hne].
    { exists 1%nat. simpl. rewrite trace_logged. split; [lia|]. by split. }
    assert (remaining <> O) as Hpos by lia.
    match goal with
    | |- context [execute_loop this fn remaining (attempt + 1) (Some e) ?w2] =>
        destruct (IH (attempt + 1) (Some e) w2) as (n & Hle & Hn & Htrace);
          [lia|]
    end.
    exists (S n). split; [lia|]. split; [done|].
    rewrite Htrace, (schedule_next attempt n (Hn Hpos)).
    simpl. rewrite engine_view_app, trace_logged, Hview. simpl.
    by rewrite <- !app_assoc.
Qed.

Lemma call_world_retried this fn attempt (k : nat) w e w1 :
  fn (record (EAttempt attempt) w) = (Rejected e, w1) ->
  call_world this fn attempt (S k) w
  = call_world this fn (attempt + 1) k (retry_world this attempt e w1).
Proof. intros Hrun. cbn [call_world]. by rewrite Hrun. Qed.

Lemma retried_before_first this fn attempt w (k : nat) :
  retried_before this fn attempt w (S k) ->
  exists e w1,
    fn (record (EAttempt attempt) w) = (Rejected e, w1) /\ isRetryableError e = true
    /\ retried_before this fn (attempt + 1) (retry_world this attempt e w1) k.
Proof.
  intros Hretried. destruct (Hretried O) as (e & w1 & Hrun & Hretry); [lia|].
  cbn [call_world] in Hrun. exists e, w1. split; [done|]. split; [done|].
  intros i Hi. destruct (Hretried (S i)) as (e' & w1' & Hrun' & Hretry'); [lia|].
  rewrite (call_world_retried _ _ _ _ _ _ _ Hrun) in Hrun'. by exists e', w1'.
Qed.

Lemma retried_before_le this fn attempt w (k k' : nat) :
  (k' <= k)%nat -> retried_before this fn attempt w k ->
  retried_before this fn attempt w k'.
Proof. intros Hle Hretried i Hi. apply Hretried. lia. Qed.

(** After [k] retried calls the handler is about to make call number
    [k], in the world [call_world] names, with the counter at
    [attempt + k]. *)
Lemma execute_loop_reaches this fn :
  forall (k remaining : nat) attempt lastError w,
    (k <= remaining)%nat ->
    maxRetries this = attempt + Z.of_nat remaining ->
    retried_before this fn attempt w k ->
    exists wk lastError',
      call_world this fn attempt k w = record (EAttempt (attempt + Z.of_nat k)) wk /\
      execute_loop this fn (S remaining) attempt lastError w
      = execute_loop this fn (S (remaining - k)) (attempt + Z.of_nat k) lastError' wk.
Proof.
  induction k as [|k IH]; intros remaining attempt lastError w Hle Hinv Hretried.
  - exists w, lastError. cbn [call_world].
    replace (attempt + Z.of_nat 0) with attempt by lia.
    by rewrite Nat.sub_0_r.
  - destruct remaining as [|remaining]; [lia|].
    destruct (retried_before_first _ _ _ _ _ Hretried) as (e & w1 & Hrun & Hretry & Hrest).
    rewrite execute_loop_step, Hrun, Hretry; cbn [negb].
    replace (attempt =? maxRetries this) with false by (symmetry; apply Z.eqb_neq; lia).
    change (elapse _ _) with (retry_world this attempt e w1).
    destruct (IH remaining (attempt + 1) (Some e) (retry_world this attempt e w1))
      as (wk & lastError' & Hworld & Hexec); [lia|lia|done|].
    exists wk, lastError'.
    rewrite (call_world_retried _ _ _ _ _ _ _ Hrun), Hworld, Hexec.
    replace (attempt + 1 + Z.of_nat k) with (attempt + Z.of_nat (S k)) by lia.
    done.
Qed.

Lemma retry_world_view this attempt e w1 :
  engine_view (trace (retry_world this attempt e w1))
  = engine_view (trace w1) ++ [ESleep (backoff_delay attempt)].
Proof.
  unfold retry_world. simpl. by rewrite engine_view_app, trace_logged.
Qed.

(** The calls and waits up to call number [k] follow the schedule. *)
Lemma call_world_view this fn :
  keeps_engine_view fn ->
  forall (k : nat) attempt w,
    retried_before this fn attempt w k ->
    engine_view (trace (call_world this fn attempt k w))
    = engine_view (trace w) ++ schedule attempt (S k).
Proof.
  intros Hfn. induction k as [|k IH]; intros attempt w Hretried.
  - simpl. by rewrite engine_view_app.
  - destruct (retried_before_first _ _ _ _ _ Hretried) as (e & w1 & Hrun & Hretry & Hrest).
    rewrite (call_world_retried _ _ _ _ _ _ _ Hrun), (IH _ _ Hrest).
    rewrite retry_world_view, (engine_view_called _ _ _ _ _ Hfn Hrun).
    rewrite (schedule_next attempt (S k)) by done.
    by rewrite <- !app_assoc.
Qed.

Lemma call_world_attempts this fn (k : nat) attempt w :
  keeps_engine_view fn ->
  retried_before this fn attempt w k ->
  attempts (trace (call_world this fn attempt k w)) = (attempts (trace w) + k + 1)%nat.
Proof.
  intros Hfn Hretried.
  rewrite <- attempts_engine_view, (call_world_view this fn Hfn _ _ _ Hretried).
  rewrite attempts_app, attempts_engine_view, attempts_schedule. lia.
Qed.

(** The handler's whole run, once the call that ends it is known: the
    outcome of that call, and a console line when it failed. *)
Lemma execute_loop_ends this fn (k remaining : nat) attempt lastError w :
  (k <= remaining)%nat ->
  maxRetries this = attempt + Z.of_nat remaining ->
  retried_before this fn attempt w k ->
  ends_at this fn attempt w k ->
  execute_loop this fn (S remaining) attempt lastError w
  = match fn (call_world this fn attempt k w) with
    | (Resolved v, w') => (Resolved v, w')
    | (Rejected e, w1) =>
        (Rejected e,
         if isRetryableError e then
           logged (rh_debug this)
             ("Max retries (" +:+ pretty (maxRetries this) +:+ ") reached, giving up") [] w1
         else
           logged (rh_debug this) "Non-retryable error, giving up:" [LError e] w1)
    end.
Proof.
  intros Hle Hinv Hretried Hends.
  destruct (execute_loop_reaches this fn k remaining attempt lastError w Hle Hinv Hretried)
    as (wk & lastError' & Hworld & Hexec).
  rewrite Hexec, execute_loop_step, <- Hworld.
  unfold ends_at in Hends.
  destruct (fn (call_world this fn attempt k w)) as [[v|e] w1]; [done|].
  cbn [fst] in Hends.
  destruct (isRetryableError e); cbn [negb]; [|done].
  destruct Hends as [|Hlast]; [done|].
  by replace (attempt + Z.of_nat k =? maxRetries this) with true
    by (symmetry; apply Z.eqb_eq; lia).
Qed.

(** Every run has a call that ends it, among the first
    [maxRetries + 1]. *)
Lemma execute_loop_run this fn :
  forall (remaining : nat) attempt w,
    maxRetries this = attempt + Z.of_nat remaining ->
    exists k : nat,
      (k <= remaining)%nat /\ retried_before this fn attempt w k
      /\ ends_at this fn attempt w k.
Proof.
  induction remaining as [|remaining IH]; intros attempt w Hinv.
  - exists O. split; [lia|]. split; [intros i Hi; lia|].
    unfold ends_at. destruct (fst _); [done|right; lia].
  - destruct (fn (record (EAttempt attempt) w)) as [[v|e] w1] eqn:Hrun.
    { exists O. split; [lia|]. split; [intros i Hi; lia|].
      unfold ends_at. cbn [call_world]. by rewrite Hrun. }
    destruct (isRetryableError e) eqn:Hretry.
    2:{ exists O. split; [lia|]. split; [intros i Hi; lia|].
        unfold ends_at. cbn [call_world]. rewrite Hrun. by left. }
    destruct (IH (attempt + 1) (retry_world this attempt e w1)) as (k & Hle & Hretried & Hends);
      [lia|].
    exists (S k). split; [lia|]. split.
    + intros [|i] Hi.
      * cbn [call_world]. by exists e, w1.
      * rewrite (call_world_retried _ _ _ _ _ _ _ Hrun). apply Hretried. lia.
    + unfold ends_at in *. rewrite (call_world_retried _ _ _ _ _ _ _ Hrun).
      destruct (fst _); [done|]. destruct Hends as [|Hlast]; [by left|right; lia].
Qed.

Lemma backoff_delay_capped (i : Z) : 5 <= i -> backoff_delay i = 3000.
Proof.
  intros Hi. unfold backoff_delay.
  assert (2 ^ 5 <= 2 ^ i) by (apply Z.pow_le_mono_r; lia).
  change (2 ^ 5) with 32 in *. lia.
Qed.

(** C2. With [maxRetries = r >= 0], an operation whose calls number 0
    to [r] each fail with a retryable error is called exactly [r + 1]
    times, and the handler then rejects with the error of the last of
    these calls; and an operation whose first [k <= r] calls fail with
    retryable errors and whose next call succeeds is called exactly
    [k + 1] times, the handler resolving with that call's value in the
    state that call left.  The calls are the ones the handler makes, each
    in the world the run has reached. *)
Theorem execute_attempt_count this fn w :
  0 <= maxRetries this ->
  keeps_engine_view fn ->
  (retried_before this fn 0 w (S (Z.to_nat (maxRetries this))) ->
   exists e w1,
     fn (call_world this fn 0 (Z.to_nat (maxRetries this)) w) = (Rejected e, w1) /\
     attempts (trace w1) = (attempts (trace w) + Z.to_nat (maxRetries this) + 1)%nat /\
     fst (execute this fn w) = Rejected e /\
     attempts (trace (snd (execute this fn w)))
     = (attempts (trace w) + Z.to_nat (maxRetries this) + 1)%nat)
  /\
  (forall k : nat,
     Z.of_nat k <= maxRetries this ->
     retried_before this fn 0 w k ->
     forall v w',
       fn (call_world this fn 0 k w) = (Resolved v, w') ->
       execute this fn w = (Resolved v, w') /\
       attempts (trace w') = (attempts (trace w) + k + 1)%nat).
Proof.
  intros Hr Hfn. unfold execute.
  replace (Z.to_nat (maxRetries this + 1)) with (S (Z.to_nat (maxRetries this))) by lia.
  split.
  - intros Hfail.
    destruct (Hfail (Z.to_nat (maxRetries this))) as (e & w1 & Hrun & Hretry); [lia|].
    assert (retried_before this fn 0 w (Z.to_nat (maxRetries this))) as Hretried
      by (apply (retried_before_le this fn 0 w (S (Z.to_nat (maxRetries this)))); [lia|done]).
    pose proof (keeps_attempts fn (call_world this fn 0 (Z.to_nat (maxRetries this)) w) Hfn)
      as Hcount.
    rewrite Hrun, (call_world_attempts _ _ _ _ _ Hfn Hretried) in Hcount.
    cbn [snd] in Hcount.
    rewrite (execute_loop_ends this fn (Z.to_nat (maxRetries this))); [|lia|lia|done|].
    2:{ unfold ends_at. rewrite Hrun. right. lia. }
    rewrite Hrun, Hretry. exists e, w1. cbn [fst snd]. rewrite attempts_logged.
    by split_and!.
  - intros k Hk Hretried v w' Hrun.
    pose proof (keeps_attempts fn (call_world this fn 0 k w) Hfn) as Hcount.
    rewrite Hrun, (call_world_attempts _ _ _ _ _ Hfn Hretried) in Hcount.
    cbn [snd] in Hcount.
    rewrite (execute_loop_ends this fn k); [|lia|lia|done|].
    2:{ unfold ends_at. by rewrite Hrun. }
    by rewrite Hrun.
Qed.

(** C4. When the first [k] calls of a run fail with retryable errors
    while retries remain, and call number [k] ends the run (it succeeds,
    its error is refused, or it is the last call allowed), the calls and
    waits of the handler are exactly attempt 0, a wait of
    [min(100 * 2^0, 3000)] ms, attempt 1, ..., a wait of
    [min(100 * 2^(k-1), 3000)] ms, attempt [k]: one wait after each failed
    call that is retried, with the delay of its attempt number, and none
    after the call that ends the run.  Every run has such a [k].  Whatever
    [maxRetries] is, the calls and waits form such a schedule.  The delays
    are 100, 200, 400, 800, 1600 and then 3000. *)
Theorem execute_backoff_schedule this fn w :
  keeps_engine_view fn ->
  (0 <= maxRetries this ->
   (forall k : nat,
      Z.of_nat k <= maxRetries this ->
      retried_before this fn 0 w k ->
      ends_at this fn 0 w k ->
      engine_view (trace (snd (execute this fn w)))
      = engine_view (trace w) ++ schedule 0 (S k))
   /\ (exists k : nat,
         Z.of_nat k <= maxRetries this /\ retried_before this fn 0 w k
         /\ ends_at this fn 0 w k))
  /\ (exists n : nat,
     (n <= Z.to_nat (maxRetries this + 1))%nat /\
     (0 <= maxRetries this -> n <> O) /\
     attempts (trace (snd (execute this fn w))) = (attempts (trace w) + n)%nat /\
     engine_view (trace (snd (execute this fn w)))
     = engine_view (trace w) ++ schedule 0 n)
  /\ backoff_delay 0 = 100 /\ backoff_delay 1 = 200 /\ backoff_delay 2 = 400
  /\ backoff_delay 3 = 800 /\ backoff_delay 4 = 1600
  /\ (forall i, 5 <= i -> backoff_delay i = 3000).
Proof.
  intros Hfn. split; [|split].
  - intros Hr. split.
    + intros k Hk Hretried Hends. unfold execute.
      replace (Z.to_nat (maxRetries this + 1)) with (S (Z.to_nat (maxRetries this))) by lia.
      rewrite (execute_loop_ends this fn k); [|lia|lia|done|done].
      rewrite <- (call_world_view this fn Hfn k 0 w Hretried).
      pose proof (Hfn (call_world this fn 0 k w)) as Hkeeps.
      destruct (fn (call_world this fn 0 k w)) as [[v|e] w1]; [done|].
      cbn [snd] in *. by destruct (isRetryableError e); rewrite trace_logged.
    + destruct (execute_loop_run this fn (Z.to_nat (maxRetries this)) 0 w)
        as (k & Hle & Hretried & Hends); [lia|].
      exists k. split; [lia|done].
  - destruct (execute_loop_schedule this fn Hfn (Z.to_nat (maxRetries this + 1)) 0 None w)
      as (n & Hle & Hn & Htrace); [lia|].
    exists n. split; [done|]. split; [intros Hr; apply Hn; lia|]. split; [|done].
    rewrite <- attempts_engine_view. unfold execute. rewrite Htrace.
    by rewrite attempts_app, attempts_engine_view, attempts_schedule.
  - repeat split; try reflexivity. exact backoff_delay_capped.
Qed.

End RetryFacts.

(** ** Computations and what they record *)

Section Preservation.

Context {App X : Type} (f : World App -> X).

Lemma preserves_ret {A} (a : A) : preserves f (ret a).
Proof. by intros w. Qed.

Lemma preserves_throw {A} e : preserves (T:=A) f (throw e).
Proof. by intros w. Qed.

Lemma preserves_bind {A B} (m : M App A) (k : A -> M App B) :
  preserves f m -> (forall a, preserves f (k a)) -> preserves f (bind m k).
Proof.
  intros Hm Hk w. unfold bind. specialize (Hm w).
  destruct (m w) as [[a|e] w1]; simpl in *; [|done].
  by rewrite (Hk a w1).
Qed.

Lemma preserves_try_catch {A} (body : M App A) (handler : JsError -> M App A) :
  preserves f body -> (forall e, preserves f (handler e)) ->
  preserves f (try_catch body handler).
Proof.
  intros Hm Hk w. unfold try_catch. specialize (Hm w).
  destruct (body w) as [[a|e] w1]; simpl in *; [done|].
  by rewrite (Hk e w1).
Qed.

Lemma preserves_try_finally {A} (body : M App A) (cleanup : World App -> World App) :
  preserves f body -> (forall w, f (cleanup w) = f w) ->
  preserves f (try_finally body cleanup).
Proof.
  intros Hm Hc w. unfold try_finally. specialize (Hm w).
  destruct (body w) as [r w1]; simpl in *. by rewrite Hc.
Qed.

Lemma preserves_effect (g : World App -> World App) :
  (forall w, f (g w) = f w) -> preserves f (effect g).
Proof. intros H w. apply H. Qed.

End Preservation.

Section Silence.

Context {App : Type} (sel : Effect -> bool).
Implicit Types (w : World App).

Lemma filter_record e w :
  List.filter sel (trace (record e w)) =
  List.filter sel (trace w) ++ (if sel e then [e] else []).
Proof. simpl. by rewrite List.filter_app. Qed.

Lemma filter_record_off e w :
  sel e = false -> List.filter sel (trace (record e w)) = List.filter sel (trace w).
Proof. intros H. by rewrite filter_record, H, app_nil_r. Qed.

Lemma filter_logged debug message args w :
  (forall m a, sel (ELog m a) = false) ->
  List.filter sel (trace (logged debug message args w)) = List.filter sel (trace w).
Proof. intros H. unfold logged. destruct debug; [|done]. by apply filter_record_off. Qed.

Lemma silent_ret {A} (a : A) : silent (App:=App) sel (ret a).
Proof. apply (preserves_ret (fun w => List.filter sel (trace w))). Qed.

Lemma silent_throw {A} e : silent (App:=App) (T:=A) sel (throw e).
Proof. apply (preserves_throw (fun w => List.filter sel (trace w))). Qed.

Lemma silent_bind {A B} (m : M App A) (k : A -> M App B) :
  silent sel m -> (forall a, silent sel (k a)) -> silent sel (bind m k).
Proof. apply (preserves_bind (fun w => List.filter sel (trace w))). Qed.

Lemma silent_try_catch {A} (body : M App A) (handler : JsError -> M App A) :
  silent sel body -> (forall e, silent sel (handler e)) ->
  silent sel (try_catch body handler).
Proof. apply (preserves_try_catch (fun w => List.filter sel (trace w))). Qed.

Lemma silent_try_finally {A} (body : M App A) (cleanup : World App -> World App) :
  silent sel body ->
  (forall w, List.filter sel (trace (cleanup w)) = List.filter sel (trace w)) ->
  silent sel (try_finally body cleanup).
Proof. apply (preserves_try_finally (fun w => List.filter sel (trace w))). Qed.

Lemma silent_effect (f : World App -> World App) :
  (forall w, List.filter sel (trace (f w)) = List.filter sel (trace w)) ->
  silent sel (effect f).
Proof. apply (preserves_effect (fun w => List.filter sel (trace w))). Qed.

Lemma silent_debugLog debug message args :
  (forall m a, sel (ELog m a) = false) ->
  silent (App:=App) sel (debugLog debug message args).
Proof. intros H. apply silent_effect. intros w. by apply filter_logged. Qed.

Lemma silent_liftH {A} (f : Host App -> outcome A * Host App) : silent sel (liftH f).
Proof. intros w. unfold liftH. by destruct (f (host w)). Qed.

Lemma silent_dateNow : silent (App:=App) sel dateNow.
Proof. by intros w. Qed.

(** The retry handler adds only its own events to what the operation
    records. *)
Lemma silent_execute_loop {T} this (fn : M App T) :
  (forall e, is_retry e = true -> sel e = false) ->
  silent sel fn ->
  forall remaining attempt lastError,
    silent sel (execute_loop this fn remaining attempt lastError).
Proof.
  intros Hsel Hfn. induction remaining as [|remaining IH]; intros attempt lastError.
  - apply silent_throw.
  - cbn [execute_loop]. apply silent_try_catch.
    + apply silent_bind; [|done]. apply silent_effect. intros w.
      by apply filter_record_off, Hsel.
    + intros e. destruct (negb (isRetryableError e)).
      { apply silent_bind; [|intros; apply silent_throw].
        apply silent_debugLog. intros; by apply Hsel. }
      destruct (attempt =? maxRetries this).
      { apply silent_bind; [|intros; apply silent_throw].
        apply silent_debugLog. intros; by apply Hsel. }
      apply silent_bind; [apply silent_debugLog; intros; by apply Hsel|].
      intros _. apply silent_bind; [|intros; apply IH].
      apply silent_effect. intros w. unfold elapse. simpl.
      rewrite List.filter_app. simpl. rewrite (Hsel (ESleep _)); [|done].
      by rewrite app_nil_r.
Qed.

Lemma silent_execute {T} this (fn : M App T) :
  (forall e, is_retry e = true -> sel e = false) ->
  silent sel fn -> silent sel (execute this fn).
Proof. intros Hsel Hfn. by apply silent_execute_loop. Qed.

Lemma filter_clearTimeout id w :
  (forall e, is_transport e = true -> sel e = false) ->
  List.filter sel (trace (clearTimeout id w)) = List.filter sel (trace w).
Proof. intros Hsel. unfold clearTimeout. rewrite filter_record_off; [done|by apply Hsel]. Qed.

Lemma silent_fetch req signal :
  (forall e, is_transport e = true -> sel e = false) ->
  silent (App:=App) sel (fetch req signal).
Proof.
  intros Hsel w. unfold fetch.
  assert (List.filter sel (trace (issue req w)) = List.filter sel (trace w)) as Hissue
    by (unfold issue; rewrite filter_record_off; [done|by apply Hsel]).
  destruct (pending_delay signal (timers (issue req w))) as [delay|].
  - destruct (delay <? _).
    + simpl. rewrite List.filter_app. simpl. rewrite (Hsel (EAbort _)); [|done].
      rewrite app_nil_r. exact Hissue.
    + destruct (network w (fetched w)); exact Hissue.
  - destruct (network w (fetched w)); exact Hissue.
Qed.

(** One delivery attempt records transport events only. *)
Lemma silent_send_attempt this payload :
  (forall e, is_transport e = true -> sel e = false) ->
  silent (App:=App) sel (send_attempt this payload).
Proof.
  intros Hsel.
  assert (forall d m a, silent (App:=App) sel (debugLog d m a)) as Hlog
    by (intros; apply silent_debugLog; intros; by apply Hsel).
  unfold send_attempt. apply silent_bind; [apply Hlog|]. intros _.
  apply silent_bind.
  { intros w. unfold setTimeout. simpl. rewrite List.filter_app. simpl.
    rewrite (Hsel (ESetTimeout _ _)); [|done]. by rewrite app_nil_r. }
  intros timeoutId. apply silent_try_finally; [|intros; by apply filter_clearTimeout].
  apply silent_try_catch.
  - unfold send_request. apply silent_bind; [by apply silent_fetch|]. intros response.
    apply silent_bind; [apply silent_effect; intros; by apply filter_clearTimeout|].
    intros _. destruct (negb (resp_ok response)).
    + apply silent_bind; [|intros; apply silent_throw].
      repeat (match goal with |- context [if ?c then _ else _] => destruct c end);
        first [apply Hlog | apply silent_ret].
    + apply silent_bind; [by intros w|]. intros data.
      apply silent_bind; [apply Hlog|]. intros; apply silent_ret.
  - intros e. unfold on_send_error. destruct (String.eqb _ _); [|apply silent_throw].
    apply silent_bind; [apply Hlog|]. intros; apply silent_throw.
Qed.

End Silence.

(** ** The transport *)

Section ClientFacts.

Context {App : Type}.
Implicit Types (w : World App) (this : APIClient).

Lemma drop_timer_head id delay ts :
  drop_timer id ((id, delay) :: ts) = drop_timer id ts.
Proof. unfold drop_timer. simpl. by rewrite Nat.eqb_refl. Qed.

Lemma drop_timer_idem id ts : drop_timer id (drop_timer id ts) = drop_timer id ts.
Proof.
  unfold drop_timer. induction ts as [|[i d] ts IH]; [done|].
  simpl. destruct (Nat.eqb i id) eqn:E; simpl; [done|]. rewrite E. simpl. by rewrite IH.
Qed.

Lemma pending_delay_dropped id ts : pending_delay id (drop_timer id ts) = None.
Proof.
  unfold pending_delay, drop_timer. induction ts as [|[i d] ts IH]; [done|].
  simpl. destruct (Nat.eqb i id) eqn:E; simpl; [done|]. by rewrite E.
Qed.

Lemma pending_delay_head id delay ts :
  pending_delay id ((id, delay) :: ts) = Some delay.
Proof. unfold pending_delay. simpl. by rewrite Nat.eqb_refl. Qed.

Lemma timers_logged debug message args w :
  timers (logged debug message args w) = timers w.
Proof. unfold logged. by destruct debug. Qed.

Lemma others_debugLog id debug message args :
  preserves (other_timers (App:=App) id) (debugLog debug message args).
Proof. apply (preserves_effect (other_timers (App:=App) id)). intros w. unfold other_timers. by rewrite timers_logged. Qed.

Lemma others_clearTimeout id w :
  drop_timer id (timers (clearTimeout id w)) = drop_timer id (timers w).
Proof. unfold clearTimeout. simpl. apply drop_timer_idem. Qed.

Lemma others_fetch req id : preserves (other_timers (App:=App) id) (fetch req id).
Proof.
  intros w. unfold fetch. change (timers (issue req w)) with (timers w).
  destruct (pending_delay id (timers w)) as [delay|].
  - destruct (delay <? _).
    + simpl. apply drop_timer_idem.
    + by destruct (network w (fetched w)).
  - by destruct (network w (fetched w)).
Qed.

Lemma others_send_body this payload id :
  preserves (other_timers (App:=App) id)
    (try_catch (send_request this payload id) (on_send_error this)).
Proof.
  apply (preserves_try_catch (other_timers (App:=App) id)).
  - unfold send_request. apply (preserves_bind (other_timers (App:=App) id)); [apply others_fetch|].
    intros response. apply (preserves_bind (other_timers (App:=App) id)).
    { apply (preserves_effect (other_timers (App:=App) id)). intros w. apply others_clearTimeout. }
    intros _. destruct (negb (resp_ok response)).
    + apply (preserves_bind (other_timers (App:=App) id)); [|intros; apply preserves_throw].
      repeat (match goal with |- context [if ?c then _ else _] => destruct c end);
        first [apply others_debugLog | apply preserves_ret].
    + apply (preserves_bind (other_timers (App:=App) id)); [by intros w|]. intros data.
      apply (preserves_bind (other_timers (App:=App) id)); [apply others_debugLog|].
      intros; apply preserves_ret.
  - intros e. unfold on_send_error. destruct (String.eqb _ _); [|apply preserves_throw].
    apply (preserves_bind (other_timers (App:=App) id)); [apply others_debugLog|].
    intros; apply preserves_throw.
Qed.

(** Whatever happens to the request, the attempt ends with its timer
    cleared and the other timers as they were. *)
Lemma send_attempt_timers this payload w :
  timers (snd (send_attempt this payload w)) = drop_timer (next_timer w) (timers w).
Proof.
  unfold send_attempt, bind at 1, debugLog, effect.
  set (w1 := logged _ _ _ w).
  assert (next_timer w1 = next_timer w /\ timers w1 = timers w) as [Hn Ht]
    by (unfold w1, logged; by destruct (debug _)).
  unfold bind, setTimeout, try_finally.
  match goal with
  | |- context [try_catch ?b ?h ?w2] =>
      pose proof (others_send_body this payload (next_timer w1) w2) as H;
        destruct (try_catch b h w2) as [r w3]
  end.
  unfold other_timers in H. simpl in *. rewrite H, Nat.eqb_refl. simpl. by rewrite Hn, Ht.
Qed.

Lemma substring_prefix (s post : string) :
  substring 0 (String.length s) (s +:+ post) = s.
Proof.
  induction s as [|c s IH]; simpl.
  - by destruct post.
  - by rewrite IH.
Qed.

Lemma substring_infix (pre s post : string) :
  substring (String.length pre) (String.length s) (pre +:+ s +:+ post) = s.
Proof.
  induction pre as [|c pre IH]; [apply (substring_prefix s post)|simpl; exact IH].
Qed.

(** A string includes each of its infixes. *)
Lemma includes_infix (pre s post : string) :
  includes (pre +:+ s +:+ post) s = true.
Proof.
  unfold includes.
  destruct (String.index 0 s (pre +:+ s +:+ post)) eqn:Hindex; [done|].
  exfalso. destruct s as [|c s].
  - by destruct (pre +:+ "" +:+ post).
  - apply (index_correct3 0 (String.length pre)) in Hindex; [|done|lia].
    apply Hindex, substring_infix.
Qed.

Lemma retryable_without_status name message :
  isRetryableError {| err_name := name; err_message := message; err_status := None |}
  = true.
Proof. unfold isRetryableError. simpl. by destruct (_ || _). Qed.

(** A timer fires no later than the delay it was armed with says. *)
Lemma timer_delay_lt delay latency :
  delay < latency -> timer_delay delay < latency.
Proof. unfold timer_delay. destruct (2147483647 <? delay) eqn:E; [apply Z.ltb_lt in E|]; lia. Qed.

Lemma timer_delay_honoured delay :
  delay <= 2147483647 -> timer_delay delay = delay.
Proof. intros H. unfold timer_delay. destruct (2147483647 <? delay) eqn:E; [apply Z.ltb_lt in E; lia|done]. Qed.

(** A request that takes longer than the abort timer is aborted, and the
    attempt fails with the timeout error. *)
Lemma send_attempt_times_out this payload w :
  timer_delay (timeout (client_config this)) < latency_of (network w (fetched w)) ->
  exists w3,
    send_attempt this payload w
    = (Rejected (Error ("Request timeout after " +:+
                        pretty (timeout (client_config this)) +:+ "ms")), w3)
    /\ In (EAbort (next_timer w)) (trace w3).
Proof.
  intros Hlate. apply Z.ltb_lt in Hlate.
  unfold send_attempt, bind at 1, debugLog, effect.
  set (w1 := logged _ _ _ w).
  assert (next_timer w1 = next_timer w /\ network w1 = network w /\
          fetched w1 = fetched w) as (Hn & Hnet & Hf)
    by (unfold w1, logged; by destruct (debug _)).
  unfold bind at 1, setTimeout, try_finally, try_catch, send_request, bind at 1, fetch.
  cbn [issue record set_timers timers network fetched next_timer].
  rewrite pending_delay_head, Hnet, Hf, Hlate.
  unfold on_send_error. cbn [AbortError err_name].
  change (String.eqb "AbortError" "AbortError") with true. cbv iota.
  unfold bind, debugLog, effect, throw.
  eexists. split; [reflexivity|].
  rewrite <- Hn. unfold clearTimeout, logged.
  destruct (debug (client_config this)); simpl;
    rewrite ?in_app_iff; simpl; tauto.
Qed.

(** C8. An attempt whose request takes longer than the configured
    timeout has the request aborted and fails with the error 'Request
    timeout after <timeout>ms', whose message includes the configured
    value and which the classifier finds retryable; and however an
    attempt ends, the timer it armed is no longer pending afterwards and
    the last thing the attempt does is clear it. *)
Theorem send_attempt_timeout this payload w :
  let t := timeout (client_config this) in
  let timeout_error := Error ("Request timeout after " +:+ pretty t +:+ "ms") in
  (t < latency_of (network w (fetched w)) ->
   fst (send_attempt this payload w) = Rejected timeout_error
   /\ In (EAbort (next_timer w)) (trace (snd (send_attempt this payload w)))
   /\ (exists message, err_message timeout_error = Some message
                       /\ includes message (pretty t) = true)
   /\ isRetryableError timeout_error = true)
  /\ timers (snd (send_attempt this payload w)) = drop_timer (next_timer w) (timers w)
  /\ pending_delay (next_timer w) (timers (snd (send_attempt this payload w))) = None
  /\ last (trace (snd (send_attempt this payload w))) = Some (EClearTimeout (next_timer w)).
Proof.
  intros t timeout_error. split; [|split; [|split]].
  - intros Hlate.
    destruct (send_attempt_times_out this payload w (timer_delay_lt _ _ Hlate))
      as (w3 & Hout & Habort).
    rewrite Hout. split; [reflexivity|]. split; [exact Habort|]. split.
    + eexists. split; [reflexivity|]. apply includes_infix.
    + apply retryable_without_status.
  - apply send_attempt_timers.
  - rewrite send_attempt_timers. apply pending_delay_dropped.
  - unfold send_attempt, bind at 1, debugLog, effect.
    set (w1 := logged _ _ _ w).
    assert (next_timer w1 = next_timer w) as Hn
      by (unfold w1, logged; by destruct (debug _)).
    unfold bind, setTimeout, try_finally.
    match goal with
    | |- context [try_catch ?b ?h ?w2] => destruct (try_catch b h w2) as [r w3]
    end.
    simpl. rewrite Hn. apply last_snoc.
Qed.

End ClientFacts.

(** ** The tracker *)

Section TrackerFacts.

Context {App : Type}.
Implicit Types (w : World App) (this : MCPTracker).

Lemma payload_of_args toolName eventType (metadata : option MCPMetadata)
    (durationMs : option Z) :
  {| tool_name := toolName;
     event_type := eventType;
     duration_ms := match durationMs with Some d => Some d | None => None end;
     metadata := match metadata with Some m => Some m | None => None end |}
  = payload_of toolName eventType metadata durationMs.
Proof. by destruct metadata, durationMs. Qed.

Lemma track_reports this toolName eventType metadata durationMs w :
  reports this (payload_of toolName eventType metadata durationMs)
    (track this toolName eventType metadata durationMs) w.
Proof.
  unfold reports, track, try_catch, bind at 1. rewrite payload_of_args.
  destruct (sendEvent (client this) _ w) as [[ack|e] w1]; simpl.
  - by eexists _, _.
  - unfold bind, debugLog, effect, ret. by eexists _, _.
Qed.

(** C1. For every tool name, event type, metadata and duration, and
    whatever the network does, [track] resolves: to [{success: true}] when
    the delivery of the payload resolved, and to [{success: false, error}]
    carrying the delivery's error when it rejected, as after the last
    retry of a transport that always fails.  [trackInvocation],
    [trackSuccess] and [trackFailure] do the same with their event
    type. *)
Theorem track_never_rejects this toolName eventType metadata durationMs w :
  reports this (payload_of toolName eventType metadata durationMs)
    (track this toolName eventType metadata durationMs) w
  /\ reports this (payload_of toolName Invocation metadata None)
       (trackInvocation this toolName metadata) w
  /\ reports this (payload_of toolName Success metadata durationMs)
       (trackSuccess this toolName metadata durationMs) w
  /\ reports this (payload_of toolName Failure metadata durationMs)
       (trackFailure this toolName metadata durationMs) w.
Proof. repeat split; apply track_reports. Qed.

Lemma track_resolves this toolName eventType metadata durationMs w :
  exists result,
    track this toolName eventType metadata durationMs w
    = (Resolved result, snd (track this toolName eventType metadata durationMs w)).
Proof.
  destruct (track_reports this toolName eventType metadata durationMs w)
    as (result & w' & Hrun & _).
  exists result. by rewrite Hrun.
Qed.

Lemma is_retry_not_boundary e : is_retry e = true -> is_boundary e = false.
Proof. by destruct e. Qed.

Lemma is_transport_not_boundary e : is_transport e = true -> is_boundary e = false.
Proof. by destruct e. Qed.

(** A tracking call asks the client for one delivery, of its payload. *)
Lemma track_boundary this toolName eventType metadata durationMs w :
  boundary_view (trace (snd (track this toolName eventType metadata durationMs w)))
  = boundary_view (trace w)
    ++ [ESendEvent (payload_of toolName eventType metadata durationMs)].
Proof.
  unfold track, try_catch, bind at 1. rewrite payload_of_args.
  set (payload := payload_of _ _ _ _).
  assert (boundary_view (trace (snd (sendEvent (client this) payload w)))
          = boundary_view (trace w) ++ [ESendEvent payload]) as Hsend.
  { unfold sendEvent, bind, effect.
    pose proof (silent_execute is_boundary (retryHandler (client this))
                  (send_attempt (client this) payload) is_retry_not_boundary
                  (silent_send_attempt is_boundary (client this) payload
                     is_transport_not_boundary)
                  (record (ESendEvent payload) w)) as H.
    unfold boundary_view. rewrite H. simpl. by rewrite List.filter_app. }
  destruct (sendEvent (client this) payload w) as [[ack|e] w1]; simpl in *; [done|].
  unfold bind, debugLog, effect, ret. simpl.
  unfold boundary_view. rewrite filter_logged; [exact Hsend|done].
Qed.

End TrackerFacts.

(** ** The wrapper *)

Section WrapFacts.

Context {App TParams TMeta TResult : Type}.
Implicit Types (w : World App) (this : MCPTracker)
  (options : WrapOptions App TParams TMeta TResult).

(** An extractor call never throws into its surroundings: the fragment
    is the extractor's result, or [undefined] when there is no extractor
    or it threw; the tracker's boundary is not touched. *)
Lemma extract_resolves this what toolName (call : option (HostFn App MCPMetadata)) w :
  exists fragment w',
    extract this what toolName call w = (Resolved fragment, w')
    /\ boundary_view (trace w') = boundary_view (trace w)
    /\ match call with
       | None => fragment = None /\ w' = w
       | Some call =>
           match fst (call (host w)) with
           | Resolved m => fragment = Some m
           | Rejected _ => fragment = None
           end
       end.
Proof.
  unfold extract. destruct call as [call|]; [|by eexists _, _].
  unfold try_catch, bind at 1, liftH.
  destruct (call (host w)) as [[m|e] h]; simpl.
  - by eexists _, _.
  - unfold bind, debugLog, effect, ret. eexists _, _. split; [reflexivity|].
    split; [|done]. unfold boundary_view. by rewrite filter_logged.
Qed.

(** The wrapped call, step by step: the invocation fragment, the
    invocation event when enabled, the call of [fn], then the outcome
    fragment and the outcome event; what the caller gets back is [fn]'s
    result, or [fn]'s error (or [undefined]) after a failure. *)
Lemma wrap_steps this toolName
    (fn : TParams -> option TMeta -> HostFn App TResult) options params meta w :
  exists invocationMetadata w1 w2,
    extract this "metadata" toolName
      ((fun g => g params meta) <$> getMetadata options) w
    = (Resolved invocationMetadata, w1)
    /\ w2 = (if default true (opt_trackInvocation options)
             then snd (trackInvocation this toolName invocationMetadata w1)
             else w1)
    /\ match fn params meta (host w2) with
       | (Resolved result, h3) =>
           exists outputMetadata w4,
             extract this "output metadata" toolName
               ((fun g => g result) <$> getOutputMetadata options)
               (set_host h3 (record ECallFn w2))
             = (Resolved outputMetadata, w4)
             /\ wrap this toolName fn options params meta w
                = (Resolved (Some result),
                   snd (trackSuccess this toolName
                          (Some (mergeMetadata [invocationMetadata; outputMetadata]))
                          (Some (clock h3 - clock (host w))) w4))
       | (Rejected e, h3) =>
           exists errorMetadata w4,
             extract this "error metadata" toolName
               ((fun g => g e) <$> getErrorMetadata options)
               (set_host h3 (record ECallFn w2))
             = (Resolved errorMetadata, w4)
             /\ wrap this toolName fn options params meta w
                = ((if default true (opt_rethrowErrors options)
                    then Rejected e else Resolved None),
                   snd (trackFailure this toolName
                          (Some (mergeMetadata [invocationMetadata; errorMetadata]))
                          (Some (clock h3 - clock (host w))) w4))
       end.
Proof.
  destruct (extract_resolves this "metadata" toolName
              ((fun g => g params meta) <$> getMetadata options) w)
    as (invocationMetadata & w1 & Hinv & _).
  exists invocationMetadata, w1. eexists. split; [exact Hinv|]. split; [reflexivity|].
  set (w2 := if default true (opt_trackInvocation options) then _ else w1).
  assert ((if default true (opt_trackInvocation options)
           then bind (trackInvocation this toolName invocationMetadata) (fun _ => ret tt)
           else ret tt) w1 = (Resolved tt, w2)) as Htracked.
  { unfold w2. destruct (default true (opt_trackInvocation options)); [|done].
    unfold bind, trackInvocation.
    destruct (track_resolves this toolName Invocation invocationMetadata None w1)
      as (r & Hr). by rewrite Hr. }
  destruct (fn params meta (host w2)) as [[result|e] h3] eqn:Hfn.
  - destruct (extract_resolves this "output metadata" toolName
                ((fun g => g result) <$> getOutputMetadata options)
                (set_host h3 (record ECallFn w2)))
      as (outputMetadata & w4 & Hout & _).
    exists outputMetadata, w4. split; [exact Hout|].
    unfold wrap, bind at 1, dateNow, try_catch_assigning. rewrite Hinv.
    unfold bind at 1. rewrite Htracked.
    unfold bind at 1. unfold bind at 1, effect, liftH.
    change (host (record ECallFn w2)) with (host w2). rewrite Hfn.
    unfold bind at 1. unfold bind at 1. rewrite Hout.
    unfold bind, trackSuccess.
    destruct (track_resolves this toolName Success
                (Some (mergeMetadata [invocationMetadata; outputMetadata]))
                (Some (clock (host (set_host h3 (record ECallFn w2))) - clock (host w))) w4)
      as (r & Hr).
    by rewrite Hr.
  - destruct (extract_resolves this "error metadata" toolName
                ((fun g => g e) <$> getErrorMetadata options)
                (set_host h3 (record ECallFn w2)))
      as (errorMetadata & w4 & Herr & _).
    exists errorMetadata, w4. split; [exact Herr|].
    unfold wrap, bind at 1, dateNow, try_catch_assigning. rewrite Hinv.
    unfold bind at 1. rewrite Htracked.
    unfold bind at 1. unfold bind at 1, effect, liftH.
    change (host (record ECallFn w2)) with (host w2). rewrite Hfn.
    unfold bind at 1. unfold bind at 1. rewrite Herr.
    unfold bind, trackFailure.
    destruct (track_resolves this toolName Failure
                (Some (mergeMetadata [invocationMetadata; errorMetadata]))
                (Some (clock (host (set_host h3 (record ECallFn w2))) - clock (host w))) w4)
      as (r & Hr).
    rewrite Hr. by destruct (default true (opt_rethrowErrors options)).
Qed.

Lemma extract_fragment this what toolName (call : option (HostFn App MCPMetadata)) w :
  fst (extract this what toolName call w) = Resolved (fragment_of call (host w))
  /\ boundary_view (trace (snd (extract this what toolName call w)))
     = boundary_view (trace w).
Proof.
  destruct (extract_resolves this what toolName call w)
    as (fragment & w' & Hrun & Hview & Hfrag).
  rewrite Hrun. simpl. split; [|exact Hview]. f_equal.
  unfold fragment_of. destruct call as [call|]; [|by destruct Hfrag].
  by destruct (fst (call (host w))).
Qed.

(** What a wrapped call does at the tracker's boundary, and what it
    gives back: with [a] the invocation fragment and [b] the outcome
    fragment, the invocation event (when enabled), the call of [fn], and
    the success or failure event with the merged fragments and the
    elapsed time. *)
Lemma wrap_boundary this toolName
    (fn : TParams -> option TMeta -> HostFn App TResult) options params meta w :
  let getM := (fun g => g params meta) <$> getMetadata options in
  let a := fragment_of getM (host w) in
  let w1 := snd (extract this "metadata" toolName getM w) in
  let tracked := default true (opt_trackInvocation options) in
  let w2 := if tracked then snd (trackInvocation this toolName a w1) else w1 in
  let before :=
    if tracked then [ESendEvent (payload_of toolName Invocation a None)] else [] in
  let run := wrap this toolName fn options params meta w in
  match fn params meta (host w2) with
  | (Resolved result, h3) =>
      let b := fragment_of ((fun g => g result) <$> getOutputMetadata options) h3 in
      fst run = Resolved (Some result)
      /\ boundary_view (trace (snd run))
         = boundary_view (trace w) ++ before ++
           [ECallFn;
            ESendEvent (payload_of toolName Success (Some (mergeMetadata [a; b]))
                          (Some (clock h3 - clock (host w))))]
  | (Rejected e, h3) =>
      let b := fragment_of ((fun g => g e) <$> getErrorMetadata options) h3 in
      fst run = (if default true (opt_rethrowErrors options)
                 then Rejected e else Resolved None)
      /\ boundary_view (trace (snd run))
         = boundary_view (trace w) ++ before ++
           [ECallFn;
            ESendEvent (payload_of toolName Failure (Some (mergeMetadata [a; b]))
                          (Some (clock h3 - clock (host w))))]
  end.
Proof.
  intros getM a w1 tracked w2 before run.
  destruct (wrap_steps this toolName fn options params meta w)
    as (a' & w1' & w2' & Hinv & Hw2 & Hrest).
  destruct (extract_fragment this "metadata" toolName getM w) as [Ha Hview1].
  fold getM in Hinv. rewrite Hinv in Ha, Hview1. cbn [fst snd] in Ha, Hview1.
  injection Ha as ->. fold a in Hw2, Hrest.
  assert (w1 = w1') as <- by (unfold w1; by rewrite Hinv).
  fold tracked in Hw2. fold w2 in Hw2. subst w2'.
  assert (boundary_view (trace w2) = boundary_view (trace w) ++ before) as Hview2.
  { unfold w2, before. destruct tracked.
    - unfold trackInvocation. by rewrite track_boundary, Hview1.
    - by rewrite app_nil_r. }
  assert (forall h, boundary_view (trace (set_host h (record ECallFn w2)))
                    = boundary_view (trace w) ++ before ++ [ECallFn]) as Hview3.
  { intros h. simpl. unfold boundary_view in *.
    by rewrite List.filter_app, Hview2, <- app_assoc. }
  destruct (fn params meta (host w2)) as [[result|e] h3].
  - destruct Hrest as (b' & w4 & Hout & Hrun).
    destruct (extract_fragment this "output metadata" toolName
                ((fun g => g result) <$> getOutputMetadata options)
                (set_host h3 (record ECallFn w2))) as [Hb Hview4].
    rewrite Hout in Hb, Hview4. cbn [fst snd] in Hb, Hview4. injection Hb as ->.
    intros b. fold b in Hrun. unfold run. rewrite Hrun. split; [done|].
    cbn [snd]. unfold trackSuccess.
    by rewrite track_boundary, Hview4, Hview3, <- !app_assoc.
  - destruct Hrest as (b' & w4 & Herr & Hrun).
    destruct (extract_fragment this "error metadata" toolName
                ((fun g => g e) <$> getErrorMetadata options)
                (set_host h3 (record ECallFn w2))) as [Hb Hview4].
    rewrite Herr in Hb, Hview4. cbn [fst snd] in Hb, Hview4. injection Hb as ->.
    intros b. fold b in Hrun. unfold run. rewrite Hrun. split; [done|].
    cbn [snd]. unfold trackFailure.
    by rewrite track_boundary, Hview4, Hview3, <- !app_assoc.
Qed.

(** C5. With no options, a wrapped call whose function resolves asks
    for exactly two deliveries, the invocation event (no duration, no
    metadata) before the function is called and the success event (with
    the elapsed time) after it; the function is called once, with the
    caller's [(params, meta)], and its result is handed back as it is. *)
Theorem wrap_success_default this toolName
    (fn : TParams -> option TMeta -> HostFn App TResult) params meta w result h' :
  fn params meta (host (snd (trackInvocation this toolName None w)))
  = (Resolved result, h') ->
  let run := wrap this toolName fn no_options params meta w in
  fst run = Resolved (Some result)
  /\ boundary_view (trace (snd run))
     = boundary_view (trace w) ++
       [ESendEvent {| tool_name := toolName; event_type := Invocation;
                      duration_ms := None; metadata := None |};
        ECallFn;
        ESendEvent {| tool_name := toolName; event_type := Success;
                      duration_ms := Some (clock h' - clock (host w));
                      metadata := Some ∅ |}].
Proof.
  intros Hfn run.
  pose proof (wrap_boundary this toolName fn no_options params meta w) as H.
  cbn [no_options getMetadata getOutputMetadata getErrorMetadata opt_trackInvocation
       opt_rethrowErrors fmap option_fmap option_map default fragment_of extract
       ret snd host] in H.
  rewrite Hfn in H. exact H.
Qed.

(** C6. With no extractors and invocation tracking on, a wrapped call
    whose function rejects asks for exactly two deliveries, the invocation
    event before the function is called and the failure event after it;
    then, with [rethrowErrors] missing or true it rejects with the
    function's own error, and with [rethrowErrors: false] it resolves to
    [undefined]. *)
Theorem wrap_failure_rethrow this toolName
    (fn : TParams -> option TMeta -> HostFn App TResult) params meta w
    (rethrow : option bool) e h' :
  fn params meta (host (snd (trackInvocation this toolName None w)))
  = (Rejected e, h') ->
  let options :=
    {| getMetadata := None; getOutputMetadata := None; getErrorMetadata := None;
       opt_trackInvocation := None; opt_rethrowErrors := rethrow |} in
  let run := wrap this toolName fn options params meta w in
  boundary_view (trace (snd run))
  = boundary_view (trace w) ++
    [ESendEvent {| tool_name := toolName; event_type := Invocation;
                   duration_ms := None; metadata := None |};
     ECallFn;
     ESendEvent {| tool_name := toolName; event_type := Failure;
                   duration_ms := Some (clock h' - clock (host w));
                   metadata := Some ∅ |}]
  /\ match rethrow with
     | None | Some true => fst run = Rejected e
     | Some false => fst run = Resolved None
     end.
Proof.
  intros Hfn options run.
  pose proof (wrap_boundary this toolName fn options params meta w) as H.
  cbn [options getMetadata getOutputMetadata getErrorMetadata opt_trackInvocation
       opt_rethrowErrors fmap option_fmap option_map default fragment_of extract
       ret snd host] in H.
  rewrite Hfn in H. destruct H as [Hres Hview]. split; [exact Hview|].
  by destruct rethrow as [[]|].
Qed.

(** C7. Whatever the options and whatever the extractors do, a wrapped
    call calls the function once and then delivers the event of its
    outcome, after the invocation event when that is enabled.  An
    extractor that throws only leaves its fragment undefined: the
    invocation event then goes without metadata, and the outcome event
    carries the merge of the fragments that are there. *)
Theorem wrap_extractor_isolation this toolName
    (fn : TParams -> option TMeta -> HostFn App TResult) options params meta w :
  let a := fragment_of ((fun g => g params meta) <$> getMetadata options) (host w) in
  exists h : Host App,
    let b :=
      match fn params meta h with
      | (Resolved result, h') =>
          fragment_of ((fun g => g result) <$> getOutputMetadata options) h'
      | (Rejected e, h') =>
          fragment_of ((fun g => g e) <$> getErrorMetadata options) h'
      end in
    boundary_view (trace (snd (wrap this toolName fn options params meta w)))
    = boundary_view (trace w) ++
      (if default true (opt_trackInvocation options)
       then [ESendEvent (payload_of toolName Invocation a None)] else []) ++
      [ECallFn;
       ESendEvent (payload_of toolName
                     (if rejected (fst (fn params meta h)) then Failure else Success)
                     (Some (mergeMetadata [a; b]))
                     (Some (clock (snd (fn params meta h)) - clock (host w))))]
    /\ (forall g, getMetadata options = Some g ->
                  rejected (fst (g params meta (host w))) = true -> a = None)
    /\ match fn params meta h with
       | (Resolved result, h') =>
           forall g, getOutputMetadata options = Some g ->
                     rejected (fst (g result h')) = true -> b = None
       | (Rejected e, h') =>
           forall g, getErrorMetadata options = Some g ->
                     rejected (fst (g e h')) = true -> b = None
       end.
Proof.
  intros a.
  pose proof (wrap_boundary this toolName fn options params meta w) as H.
  cbv zeta in H. fold a in H.
  assert (forall g, getMetadata options = Some g ->
                    rejected (fst (g params meta (host w))) = true -> a = None) as Ha.
  { unfold a. intros g -> Hthrow. simpl. by destruct (fst (g params meta (host w))). }
  match type of H with
  | match fn params meta ?h with _ => _ end =>
      exists h; destruct (fn params meta h) as [[result|e] h3]
  end; cbv zeta; (split; [exact (proj2 H)|]); (split; [exact Ha|]).
  - intros g -> Hthrow. simpl. by destruct (fst (g result h3)).
  - intros g -> Hthrow. simpl. by destruct (fst (g e h3)).
Qed.

Lemma mergeMetadata_nothing (a b : option MCPMetadata) :
  a = None \/ a = Some ∅ -> b = None \/ b = Some ∅ -> mergeMetadata [a; b] = ∅.
Proof.
  intros [-> | ->] [-> | ->]; rewrite mergeMetadata_pair; simpl;
    by rewrite ?(left_id_L ∅ (∪)).
Qed.

Lemma fragment_of_nothing (call : option (HostFn App MCPMetadata)) (h : Host App) :
  contributes_nothing call h ->
  fragment_of call h = None \/ fragment_of call h = Some ∅.
Proof.
  unfold contributes_nothing, fragment_of. destruct call as [call|]; [|by left].
  destruct (fst (call h)); [intros ->; by right|by left].
Qed.

(** C10. The last delivery of every wrapped call is its success or
    failure event, the only one of that kind, and its payload has a
    metadata field: the merge of the fragment [getMetadata] gave before
    the call and the fragment the extractor of the outcome gave after it.
    When each of the two extractors is missing, throws or returns the
    empty object, the field is the empty object.  [track] passes the
    metadata it is given into the payload as it is, so an empty object is
    sent and only an undefined one is left out. *)
Theorem wrap_outcome_metadata_present this toolName
    (fn : TParams -> option TMeta -> HostFn App TResult) options params meta w :
  (let getM := (fun g => g params meta) <$> getMetadata options in
   let a := fragment_of getM (host w) in
   let called := fn params meta (host (before_call this toolName options params meta w)) in
   let getO :=
     match fst called with
     | Resolved result => (fun g => g result) <$> getOutputMetadata options
     | Rejected e => (fun g => g e) <$> getErrorMetadata options
     end in
   let b := fragment_of getO (snd called) in
   let before :=
     (if default true (opt_trackInvocation options)
      then [ESendEvent (payload_of toolName Invocation a None)] else []) ++ [ECallFn] in
   boundary_view (trace (snd (wrap this toolName fn options params meta w)))
   = boundary_view (trace w) ++ before ++
     [ESendEvent {| tool_name := toolName;
                    event_type := if rejected (fst called) then Failure else Success;
                    duration_ms := Some (clock (snd called) - clock (host w));
                    metadata := Some (mergeMetadata [a; b]) |}]
   /\ (forall p, In (ESendEvent p) before -> event_type p = Invocation)
   /\ (contributes_nothing getM (host w) -> contributes_nothing getO (snd called) ->
       boundary_view (trace (snd (wrap this toolName fn options params meta w)))
       = boundary_view (trace w) ++ before ++
         [ESendEvent {| tool_name := toolName;
                        event_type := if rejected (fst called) then Failure else Success;
                        duration_ms := Some (clock (snd called) - clock (host w));
                        metadata := Some ∅ |}]))
  /\ (forall eventType (metadata : option MCPMetadata) durationMs,
        boundary_view (trace (snd (track this toolName eventType metadata durationMs w)))
        = boundary_view (trace w) ++
          [ESendEvent {| tool_name := toolName; event_type := eventType;
                         duration_ms := durationMs; metadata := metadata |}]).
Proof.
  split; [|intros; apply track_boundary].
  intros getM a called getO b before.
  assert (boundary_view (trace (snd (wrap this toolName fn options params meta w)))
          = boundary_view (trace w) ++ before ++
            [ESendEvent {| tool_name := toolName;
                           event_type := if rejected (fst called) then Failure else Success;
                           duration_ms := Some (clock (snd called) - clock (host w));
                           metadata := Some (mergeMetadata [a; b]) |}]) as Hview.
  { pose proof (wrap_boundary this toolName fn options params meta w) as H.
    cbv zeta in H. unfold b, getO, before, called, before_call. fold getM. fold a.
    fold getM in H. fold a in H.
    match type of H with
    | match fn params meta ?h with _ => _ end =>
        destruct (fn params meta h) as [[result|e] h3]
    end; destruct H as [_ Hview]; rewrite Hview; cbn [fst snd rejected];
      by rewrite <- !app_assoc. }
  split; [exact Hview|]. split.
  - unfold before. destruct (default true (opt_trackInvocation options)); simpl;
      intros p Hin.
    + destruct Hin as [[= <-]|[|[]]]; done.
    + by destruct Hin.
  - intros Ha Hb. rewrite Hview.
    by rewrite (mergeMetadata_nothing a b (fragment_of_nothing _ _ Ha)
                  (fragment_of_nothing _ _ Hb)).
Qed.

End WrapFacts.

(** ** The classifier *)

Lemma isRetryableError_network_kind name message status :
  name = "TypeError" \/ (exists m, message = Some m /\ includes m "fetch" = true) ->
  isRetryableError {| err_name := name; err_message := message; err_status := status |}
  = true.
Proof.
  unfold isRetryableError. simpl. intros [-> | (m & -> & ->)]; [done|].
  by rewrite orb_true_r.
Qed.

Lemma isRetryableError_server name message status :
  500 <= status ->
  isRetryableError {| err_name := name; err_message := message;
                      err_status := Some status |} = true.
Proof.
  intros Hs. unfold isRetryableError. simpl. destruct (_ || _); [done|].
  destruct (negb (status =? 0)); [|done].
  replace (status <? 500) with false by (symmetry; apply Z.ltb_ge; lia).
  rewrite andb_false_r. by destruct (500 <=? status).
Qed.

(** An HTTP client error is not retried, unless its name or message
    makes it look like a network error. *)
Lemma isRetryableError_client name message status :
  400 <= status < 500 ->
  name <> "TypeError" ->
  (forall m, message = Some m -> includes m "fetch" = false) ->
  isRetryableError {| err_name := name; err_message := message;
                      err_status := Some status |} = false.
Proof.
  intros Hs Hname Hmsg. unfold isRetryableError. simpl.
  replace (String.eqb name "TypeError") with false
    by (symmetry; by apply String.eqb_neq).
  replace (match message with Some m => includes m "fetch" | None => false end)
    with false by (destruct message as [m|]; [symmetry; by apply Hmsg|done]).
  simpl.
  replace (status =? 0) with false by (symmetry; apply Z.eqb_neq; lia).
  replace (400 <=? status) with true by (symmetry; apply Z.leb_le; lia).
  replace (status <? 500) with true by (symmetry; apply Z.ltb_lt; lia).
  reflexivity.
Qed.

(** An error the classifier refuses ends the loop after the call that
    threw it. *)
Lemma execute_not_retried {App T} this (fn : M App T) w e w1 :
  0 <= maxRetries this ->
  fn (record (EAttempt 0) w) = (Rejected e, w1) ->
  isRetryableError e = false ->
  execute this fn w
  = (Rejected e,
     logged (rh_debug this) "Non-retryable error, giving up:" [LError e] w1).
Proof.
  intros Hr Hrun Hno. unfold execute.
  replace (Z.to_nat (maxRetries this + 1)) with (S (Z.to_nat (maxRetries this))) by lia.
  by rewrite execute_loop_step, Hrun, Hno.
Qed.

(** C3. The classifier and the transport on an HTTP 400 whose body
    contains the word fetch: the error carries status 400, yet it is
    classified retryable, and with the default 3 retries the event is
    sent 4 times, with waits of 100, 200 and 400 ms, before the error is
    reported. *)
Theorem client_error_mentioning_fetch_is_retried :
  err_status bad_request_error = Some 400
  /\ isRetryableError bad_request_error = true
  /\ (let run := track sample_tracker "tool" Invocation None None
                   (world_on rejecting_network) in
      fst run = Resolved {| success := false; error := Some bad_request_error |}
      /\ fetched (snd run) = 4%nat
      /\ engine_view (trace (snd run))
         = [EAttempt 0; ESleep 100; EAttempt 1; ESleep 200; EAttempt 2; ESleep 400;
            EAttempt 3]).
Proof. vm_compute. repeat split; reflexivity. Qed.

(** ** The properties at sample inputs *)

Example track_on_dead_network :
  let run := track sample_tracker "tool" Invocation None None (world_on dead_network) in
  fst run = Resolved {| success := false; error := Some fetch_failed |}
  /\ fetched (snd run) = 4%nat.
Proof. vm_compute. by split. Qed.

Example track_on_healthy_network :
  let run := track sample_tracker "tool" Success (Some ∅) (Some 150)
               (world_on healthy_network) in
  fst run = Resolved {| success := true; error := None |}
  /\ fetched (snd run) = 1%nat.
Proof. vm_compute. by split. Qed.

Example backoff_with_four_retries :
  engine_view (trace (snd (execute {| maxRetries := 4; rh_debug := true |}
                             always_failing (world_on healthy_network))))
  = [EAttempt 0; ESleep 100; EAttempt 1; ESleep 200; EAttempt 2; ESleep 400;
     EAttempt 3; ESleep 800; EAttempt 4].
Proof. vm_compute. reflexivity. Qed.

Example backoff_is_capped :
  List.filter (fun e => match e with ESleep _ => true | _ => false end)
    (trace (snd (execute {| maxRetries := 7; rh_debug := false |}
                   always_failing (world_on healthy_network))))
  = [ESleep 100; ESleep 200; ESleep 400; ESleep 800; ESleep 1600; ESleep 3000;
     ESleep 3000].
Proof. vm_compute. reflexivity. Qed.

Example wrap_two_requests :
  let run := wrap sample_tracker "tool" sample_fn no_options 1 None
               (world_on healthy_network) in
  fst run = Resolved (Some 2) /\ fetched (snd run) = 2%nat.
Proof. vm_compute. by split. Qed.

Lemma always_failing_keeps_engine_view : keeps_engine_view always_failing.
Proof. intros w. reflexivity. Qed.

Lemma scripted_keeps_engine_view script : keeps_engine_view (scripted script).
Proof. by intros w. Qed.

Lemma execute_attempt_count_witness :
  (exists e w1,
      always_failing (call_world sample_retry always_failing 0 2 (world_on healthy_network))
      = (Rejected e, w1)
      /\ attempts (trace w1) = 3%nat
      /\ fst (execute sample_retry always_failing (world_on healthy_network)) = Rejected e
      /\ attempts (trace (snd (execute sample_retry always_failing
                                 (world_on healthy_network)))) = 3%nat)
  /\ execute sample_retry fails_twice counting_world
     = (Resolved 42,
        snd (fails_twice (call_world sample_retry fails_twice 0 2 counting_world)))
  /\ attempts (trace (snd (fails_twice
                             (call_world sample_retry fails_twice 0 2 counting_world))))
     = 3%nat.
Proof.
  assert (0 <= maxRetries sample_retry) as Hr by (simpl; lia).
  split.
  - apply (proj1 (execute_attempt_count sample_retry always_failing
                    (world_on healthy_network) Hr always_failing_keeps_engine_view)).
    intros i Hi. eexists _, _. split; reflexivity.
  - apply (proj2 (execute_attempt_count sample_retry fails_twice
                    counting_world Hr (scripted_keeps_engine_view _)) 2%nat).
    + simpl. lia.
    + intros [|[|i]] Hi; [eexists _, _; split; reflexivity..|lia].
    + reflexivity.
Defined.

Lemma execute_backoff_schedule_witness :
  engine_view (trace (snd (execute sample_retry always_failing (world_on healthy_network))))
  = [EAttempt 0; ESleep 100; EAttempt 1; ESleep 200; EAttempt 2]
  /\ engine_view (trace (snd (execute {| maxRetries := 4; rh_debug := true |}
                                fails_twice counting_world)))
     = [EAttempt 0; ESleep 100; EAttempt 1; ESleep 200; EAttempt 2].
Proof.
  split.
  - refine (proj1 (proj1 (execute_backoff_schedule sample_retry always_failing
                            (world_on healthy_network) always_failing_keeps_engine_view) _)
              2%nat _ _ _).
    + simpl. lia.
    + simpl. lia.
    + intros i Hi. eexists _, _. split; reflexivity.
    + right. reflexivity.
  - refine (proj1 (proj1 (execute_backoff_schedule {| maxRetries := 4; rh_debug := true |}
                            fails_twice counting_world (scripted_keeps_engine_view _)) _)
              2%nat _ _ _).
    + simpl. lia.
    + simpl. lia.
    + intros [|[|i]] Hi; [eexists _, _; split; reflexivity..|lia].
    + exact I.
Defined.

Lemma send_attempt_timeout_witness :
  fst (send_attempt (client sample_tracker)
         (payload_of "tool" Invocation None None) (world_on slow_network))
  = Rejected (Error "Request timeout after 5000ms").
Proof.
  refine (proj1 (proj1 (send_attempt_timeout (client sample_tracker)
                          (payload_of "tool" Invocation None None)
                          (world_on slow_network)) _)).
  vm_compute. reflexivity.
Defined.

Lemma wrap_success_default_witness :
  fst (wrap sample_tracker "tool" sample_fn no_options 1 None
         (world_on healthy_network))
  = Resolved (Some 2).
Proof.
  refine (proj1 (wrap_success_default sample_tracker "tool" sample_fn 1 None
                   (world_on healthy_network) 2
                   (snd (sample_fn 1 None
                           (host (snd (trackInvocation sample_tracker "tool" None
                                         (world_on healthy_network)))))) _)).
  reflexivity.
Defined.

Lemma wrap_failure_rethrow_witness :
  fst (wrap sample_tracker "tool" failing_fn
         {| getMetadata := None; getOutputMetadata := None; getErrorMetadata := None;
            opt_trackInvocation := None; opt_rethrowErrors := Some false |}
         1 None (world_on healthy_network))
  = Resolved None.
Proof.
  refine (proj2 (wrap_failure_rethrow sample_tracker "tool" failing_fn 1 None
                   (world_on healthy_network) (Some false) (Error "boom")
                   (snd (failing_fn 1 None
                           (host (snd (trackInvocation sample_tracker "tool" None
                                         (world_on healthy_network)))))) _)).
  reflexivity.
Defined.

Lemma wrap_outcome_metadata_present_witness :
  boundary_view
    (trace (snd (wrap sample_tracker "tool" sample_fn broken_options 1 None
                   (world_on healthy_network))))
  = [ESendEvent (payload_of "tool" Invocation None None);
     ECallFn;
     ESendEvent (payload_of "tool" Success (Some ∅) (Some 120))].
Proof.
  refine (proj2 (proj2 (proj1 (wrap_outcome_metadata_present sample_tracker "tool"
                                 sample_fn broken_options 1 None
                                 (world_on healthy_network)))) _ _).
  - exact I.
  - exact I.
Defined.

Example wrap_with_broken_extractors :
  let run := wrap sample_tracker "tool" sample_fn broken_options 1 None
               (world_on healthy_network) in
  fst run = Resolved (Some 2)
  /\ boundary_view (trace (snd run))
     = [ESendEvent (payload_of "tool" Invocation None None);
        ECallFn;
        ESendEvent (payload_of "tool" Success (Some ∅) (Some 120))].
Proof. vm_compute. by split. Qed.

(** * Further properties *)

(** ** Metadata merge, any number of fragments *)

Lemma merge_fold_lookup (fragments : list (option MCPMetadata)) (acc : MCPMetadata)
    (k : string) :
  fold_left
    (fun acc metadata =>
       match metadata with
       | None => acc
       | Some metadata => metadata ∪ acc
       end)
    fragments acc !! k
  = match last_defined fragments k with
    | Some v => Some v
    | None => acc !! k
    end.
Proof.
  revert acc. induction fragments as [|fragment rest IH]; intros acc; [done|].
  cbn [fold_left last_defined]. rewrite IH.
  destruct (last_defined rest k); [done|].
  destruct fragment as [m|]; simpl; [|done].
  rewrite lookup_union. by destruct (m !! k), (acc !! k).
Qed.

Lemma merge_fold_union (fragments : list (option MCPMetadata)) (acc : MCPMetadata) :
  fold_left
    (fun acc metadata =>
       match metadata with
       | None => acc
       | Some metadata => metadata ∪ acc
       end)
    fragments acc
  = mergeMetadata fragments ∪ acc.
Proof.
  apply map_eq. intros k. unfold mergeMetadata.
  rewrite lookup_union, !merge_fold_lookup, lookup_empty.
  by destruct (last_defined fragments k), (acc !! k).
Qed.

(** X1. Merging any number of fragments: under each key the result holds
    the value of the last fragment that has the key, and no value when
    none has it. *)
Theorem mergeMetadata_last_wins (fragments : list (option MCPMetadata)) (k : string) :
  mergeMetadata fragments !! k = last_defined fragments k.
Proof.
  unfold mergeMetadata. rewrite merge_fold_lookup, lookup_empty.
  by destruct (last_defined fragments k).
Qed.

(** X2. Merging in two steps gives what merging at once gives: the merge
    of a concatenation is the later merge laid over the earlier one, and
    merging two merges is merging all their fragments. *)
Theorem mergeMetadata_app (earlier later : list (option MCPMetadata)) :
  mergeMetadata (earlier ++ later) = mergeMetadata later ∪ mergeMetadata earlier
  /\ mergeMetadata [Some (mergeMetadata earlier); Some (mergeMetadata later)]
     = mergeMetadata (earlier ++ later).
Proof.
  assert (mergeMetadata (earlier ++ later)
          = mergeMetadata later ∪ mergeMetadata earlier) as Happ.
  { unfold mergeMetadata at 1. rewrite fold_left_app.
    fold (mergeMetadata earlier). apply merge_fold_union. }
  split; [exact Happ|].
  rewrite Happ, mergeMetadata_pair. reflexivity.
Qed.

(** ** The classifier, in full *)

(** X3. The classifier refuses an error exactly when its name is not
    TypeError, its message (if any) does not contain fetch, and it carries
    a status from 400 to 499; every other error is retried, among them
    errors with status 0, 1xx, 2xx or 3xx. *)
Theorem isRetryableError_false_iff (e : JsError) :
  isRetryableError e = false <->
  err_name e <> "TypeError"
  /\ (forall m, err_message e = Some m -> includes m "fetch" = false)
  /\ (exists status, err_status e = Some status /\ 400 <= status < 500).
Proof.
  destruct e as [name message status]. unfold isRetryableError. simpl. split.
  - destruct (String.eqb_spec name "TypeError") as [|Hname]; [done|]. simpl.
    destruct message as [m|].
    + destruct (includes m "fetch") eqn:Hm; [done|].
      destruct status as [s|]; [|done].
      destruct (s =? 0); [done|]. simpl.
      destruct (Z.leb_spec 400 s), (Z.ltb_spec s 500); simpl;
        try (by destruct (500 <=? s)).
      intros _. split; [done|]. split; [by intros ? [= <-]|].
      exists s. split; [done|lia].
    + destruct status as [s|]; [|done].
      destruct (s =? 0); [done|]. simpl.
      destruct (Z.leb_spec 400 s), (Z.ltb_spec s 500); simpl;
        try (by destruct (500 <=? s)).
      intros _. split; [done|]. split; [done|].
      exists s. split; [done|lia].
  - intros (Hname & Hmsg & s & -> & Hs).
    apply isRetryableError_client; [done..|].
    intros m ->. by apply Hmsg.
Qed.

(** ** The retry handler, further *)

Section RetryMore.

Context {App T : Type}.
Implicit Types (w : World App) (fn : M App T) (this : RetryHandler).

(** X4. An error the classifier refuses ends the retrying at once, also
    when it comes after retryable failures and retries are left: if the
    first [k] calls the handler makes fail with retryable errors and its
    next call fails with a refused one, that error is the one thrown, right
    after that call, and the operation has been called exactly [k + 1]
    times. *)
Theorem execute_stops_at_refusal this fn w (k : nat) e w1 :
  keeps_engine_view fn ->
  Z.of_nat k <= maxRetries this ->
  retried_before this fn 0 w k ->
  fn (call_world this fn 0 k w) = (Rejected e, w1) ->
  isRetryableError e = false ->
  execute this fn w
  = (Rejected e,
     logged (rh_debug this) "Non-retryable error, giving up:" [LError e] w1)
  /\ attempts (trace (snd (execute this fn w))) = (attempts (trace w) + k + 1)%nat.
Proof.
  intros Hfn Hk Hretried Hrun Hno. unfold execute.
  replace (Z.to_nat (maxRetries this + 1)) with (S (Z.to_nat (maxRetries this))) by lia.
  pose proof (keeps_attempts fn (call_world this fn 0 k w) Hfn) as Hcount.
  rewrite Hrun, (call_world_attempts _ _ _ _ _ Hfn Hretried) in Hcount.
  cbn [snd] in Hcount.
  rewrite (execute_loop_ends this fn k); [|lia|lia|done|].
  2:{ unfold ends_at. rewrite Hrun. by left. }
  rewrite Hrun, Hno. split; [done|]. cbn [snd]. by rewrite attempts_logged.
Qed.

Lemma backoff_delay_range (i : Z) : 0 <= i -> 100 <= backoff_delay i <= 3000.
Proof.
  intros Hi. unfold backoff_delay.
  assert (0 < 2 ^ i) by (apply Z.pow_pos_nonneg; lia). lia.
Qed.

Lemma schedule_waits (first : Z) (n : nat) (d : Z) :
  0 <= first -> In (ESleep d) (schedule first n) -> 100 <= d <= 3000.
Proof.
  revert first. induction n as [|n IH]; intros first Hfirst Hin; [by destruct Hin|].
  destruct n as [|n].
  - simpl in Hin. by destruct Hin as [|[]].
  - rewrite schedule_next in Hin by done.
    destruct Hin as [|[[= <-]|Hin]]; [done|by apply backoff_delay_range|].
    apply (IH (first + 1)); [lia|done].
Qed.

(** X5. Whatever the operation does and however many retries are
    configured, each wait the handler inserts is at least 100 ms and at
    most 3000 ms. *)
Theorem execute_waits_bounded this fn w (d : Z) :
  keeps_engine_view fn ->
  In (ESleep d) (engine_view (trace (snd (execute this fn w)))) ->
  In (ESleep d) (engine_view (trace w)) \/ 100 <= d <= 3000.
Proof.
  intros Hfn Hin.
  destruct (execute_loop_schedule this fn Hfn (Z.to_nat (maxRetries this + 1)) 0 None w)
    as (n & _ & _ & Htrace); [lia|].
  unfold execute in Hin. rewrite Htrace in Hin.
  apply in_app_or in Hin as [Hin|Hin]; [by left|right].
  by apply (schedule_waits 0 n).
Qed.

(** With a negative [maxRetries] the loop body never runs. *)
Lemma execute_negative this fn w :
  maxRetries this < 0 ->
  execute this fn w = (Rejected (Error "Unexpected error in retry handler"), w).
Proof.
  intros Hr. unfold execute.
  replace (Z.to_nat (maxRetries this + 1)) with O by lia. reflexivity.
Qed.

End RetryMore.

(** ** What the retry handler adds to what its operation records *)

Section RetryViews.

Context {App T : Type}.
Implicit Types (w : World App) (fn : M App T) (this : RetryHandler).

Lemma concat_replicate_one {A} (n : nat) (x : A) :
  List.concat (replicate n [x]) = replicate n x.
Proof. induction n as [|n IH]; [done|]. simpl. by rewrite IH. Qed.

(** When every call of the operation adds the same events to a view the
    handler's own events do not show in, the view grows by these events
    once per attempt. *)
Lemma execute_loop_appends this fn (sel : Effect -> bool) (evs : list Effect) :
  (forall e, is_retry e = true -> sel e = false) ->
  keeps_engine_view fn ->
  (forall w, List.filter sel (trace (snd (fn w))) = List.filter sel (trace w) ++ evs) ->
  forall remaining attempt lastError w,
    exists n : nat,
      (n <= remaining)%nat /\ (remaining <> O -> n <> O) /\
      attempts (trace (snd (execute_loop this fn remaining attempt lastError w)))
      = (attempts (trace w) + n)%nat /\
      List.filter sel (trace (snd (execute_loop this fn remaining attempt lastError w)))
      = List.filter sel (trace w) ++ List.concat (replicate n evs).
Proof.
  intros Hsel Hfn Hadds.
  induction remaining as [|remaining IH]; intros attempt lastError w.
  - exists O. simpl. rewrite app_nil_r. split_and!; [done|done|lia|done].
  - rewrite execute_loop_step.
    pose proof (Hadds (record (EAttempt attempt) w)) as Hview.
    rewrite (filter_record_off sel) in Hview by (by apply Hsel).
    destruct (fn (record (EAttempt attempt) w)) as [[v|e] w1] eqn:Hrun;
      pose proof (attempts_called _ _ _ _ _ Hfn Hrun) as Hcount;
      cbn [snd] in Hview.
    { exists 1%nat. simpl. rewrite app_nil_r. split_and!; [lia|done|lia|done]. }
    destruct (isRetryableError e); cbn [negb].
    2:{ exists 1%nat. simpl. rewrite app_nil_r, attempts_logged, filter_logged
          by (intros; by apply Hsel).
        split_and!; [lia|done|lia|done]. }
    destruct (attempt =? maxRetries this).
    { exists 1%nat. simpl. rewrite app_nil_r, attempts_logged, filter_logged
        by (intros; by apply Hsel).
      split_and!; [lia|done|lia|done]. }
    match goal with
    | |- context [execute_loop this fn remaining (attempt + 1) (Some e) ?w2] =>
        destruct (IH (attempt + 1) (Some e) w2) as (n & Hle & _ & Hn & Htrace);
        assert (attempts (trace w2) = S (attempts (trace w))) as Hw2
          by (simpl; rewrite attempts_snoc, attempts_logged, Hcount; simpl; lia);
        assert (List.filter sel (trace w2) = List.filter sel (trace w) ++ evs) as Hv2
          by (simpl; rewrite List.filter_app, filter_logged, Hview
                by (intros; by apply Hsel);
              simpl; rewrite (Hsel (ESleep _)) by done; by rewrite app_nil_r)
    end.
    exists (S n). rewrite Hn, Htrace, Hw2, Hv2. simpl. rewrite <- app_assoc.
    split_and!; [lia|done|lia|done].
Qed.

(** An operation that fails with a retryable error in every world an
    invariant describes, and keeps the invariant, is called on every
    iteration. *)
Lemma execute_loop_exhausts_on this fn (Inv : World App -> Prop) :
  keeps_engine_view fn ->
  (forall e w, Inv w -> Inv (record e w)) ->
  (forall d w, Inv w -> Inv (elapse d w)) ->
  (forall w0, Inv w0 ->
              exists e w1, fn w0 = (Rejected e, w1) /\ isRetryableError e = true
                           /\ Inv w1) ->
  forall remaining attempt lastError w,
    Inv w ->
    maxRetries this = attempt + Z.of_nat remaining ->
    exists e wl w1,
      Inv wl /\ fn wl = (Rejected e, w1) /\
      execute_loop this fn (S remaining) attempt lastError w
      = (Rejected e,
         logged (rh_debug this)
           ("Max retries (" +:+ pretty (maxRetries this) +:+ ") reached, giving up") [] w1) /\
      attempts (trace w1) = (attempts (trace w) + S remaining)%nat.
Proof.
  intros Hfn Hrec Hela Hfail.
  assert (forall d m a w, Inv w -> Inv (logged d m a w)) as Hlog
    by (intros [] m a w Hw; unfold logged; [by apply Hrec|done]).
  induction remaining as [|remaining IH]; intros attempt lastError w Hw Hinv;
    rewrite execute_loop_step;
    destruct (Hfail (record (EAttempt attempt) w)) as (e & w1 & Hrun & Hretry & Hw1);
    [by apply Hrec| |by apply Hrec|];
    pose proof (attempts_called _ _ _ _ _ Hfn Hrun) as Hcount;
    rewrite Hrun, Hretry; cbn [negb].
  - replace (attempt =? maxRetries this) with true by (symmetry; apply Z.eqb_eq; lia).
    exists e, (record (EAttempt attempt) w), w1.
    repeat split; [by apply Hrec|done|lia].
  - replace (attempt =? maxRetries this) with false by (symmetry; apply Z.eqb_neq; lia).
    match goal with
    | |- context [execute_loop this fn (S remaining) (attempt + 1) (Some e) ?w2] =>
        destruct (IH (attempt + 1) (Some e) w2)
          as (e' & wl & w1' & Hwl & Hlast & Hexec & Hn);
          [by apply Hela, Hrec, Hlog|lia|]
    end.
    exists e', wl, w1'. repeat split; [done..|].
    rewrite Hn. simpl. rewrite attempts_snoc, attempts_logged, Hcount. simpl. lia.
Qed.

(** Whatever holds before and is kept by the operation and by recording
    and waiting holds when the handler is done. *)
Lemma execute_loop_keeps this fn (Inv : World App -> Prop) :
  (forall e w, Inv w -> Inv (record e w)) ->
  (forall d w, Inv w -> Inv (elapse d w)) ->
  (forall w, Inv w -> Inv (snd (fn w))) ->
  forall remaining attempt lastError w,
    Inv w -> Inv (snd (execute_loop this fn remaining attempt lastError w)).
Proof.
  intros Hrec Hela Hfn.
  assert (forall d m a w, Inv w -> Inv (logged d m a w)) as Hlog
    by (intros [] m a w Hw; unfold logged; [by apply Hrec|done]).
  induction remaining as [|remaining IH]; intros attempt lastError w Hw; [done|].
  rewrite execute_loop_step.
  pose proof (Hfn (record (EAttempt attempt) w) (Hrec _ _ Hw)) as Hw1.
  destruct (fn (record (EAttempt attempt) w)) as [[v|e] w1]; cbn [snd] in *; [done|].
  destruct (negb (isRetryableError e)); [by apply Hlog|].
  destruct (attempt =? maxRetries this); [by apply Hlog|].
  by apply IH, Hela, Hrec, Hlog.
Qed.

End RetryViews.

(** ** The transport, further *)

Section ClientMore.

Context {App : Type}.
Implicit Types (w : World App) (this : APIClient).

Lemma logged_fields debug message args w :
  network (logged debug message args w) = network w
  /\ fetched (logged debug message args w) = fetched w
  /\ next_timer (logged debug message args w) = next_timer w
  /\ timers (logged debug message args w) = timers w
  /\ host (logged debug message args w) = host w.
Proof. unfold logged. by destruct debug. Qed.

Lemma appends_bind_silent {A B} sel evs (m : M App A) (k : A -> M App B) :
  appends sel evs m -> (forall a, silent sel (k a)) -> appends sel evs (bind m k).
Proof.
  intros Hm Hk w. unfold bind. specialize (Hm w).
  destruct (m w) as [[a|e] w1]; cbn [snd] in *; [|done].
  by rewrite (Hk a w1).
Qed.

Lemma appends_try_catch {A} sel evs (body : M App A) (handler : JsError -> M App A) :
  appends sel evs body -> (forall e, silent sel (handler e)) ->
  appends sel evs (try_catch body handler).
Proof.
  intros Hm Hk w. unfold try_catch. specialize (Hm w).
  destruct (body w) as [[a|e] w1]; cbn [snd] in *; [done|].
  by rewrite (Hk e w1).
Qed.

Lemma appends_try_finally {A} sel evs (body : M App A)
    (cleanup : World App -> World App) :
  appends sel evs body ->
  (forall w, List.filter sel (trace (cleanup w)) = List.filter sel (trace w)) ->
  appends sel evs (try_finally body cleanup).
Proof.
  intros Hm Hc w. unfold try_finally. specialize (Hm w).
  destruct (body w) as [r w1]; cbn [snd] in *. by rewrite Hc.
Qed.

Section Sends.

Context (sel : Effect -> bool).
Hypothesis Hoff :
  forall e, is_transport e = true -> is_fetch e = false -> sel e = false.
Hypothesis Hon : forall req, sel (EFetch req) = true.

Lemma sends_debugLog d m a : silent (App:=App) sel (debugLog d m a).
Proof. apply silent_debugLog; intros; by apply Hoff. Qed.

Lemma sends_clearTimeout id w :
  List.filter sel (trace (clearTimeout id w)) = List.filter sel (trace w).
Proof.
  unfold clearTimeout. rewrite filter_record_off by (by apply Hoff). reflexivity.
Qed.

Lemma appends_fetch req id : appends (App:=App) sel [EFetch req] (fetch req id).
Proof.
  intros w. unfold fetch.
  assert (List.filter sel (trace (issue req w))
          = List.filter sel (trace w) ++ [EFetch req]) as Hissue
    by (unfold issue; by rewrite filter_record, Hon).
  destruct (pending_delay id (timers (issue req w))) as [delay|].
  - destruct (delay <? _).
    + cbn [snd]. rewrite filter_record_off by (by apply Hoff). exact Hissue.
    + destruct (network w (fetched w)); exact Hissue.
  - destruct (network w (fetched w)); exact Hissue.
Qed.

Lemma silent_on_send_error this e : silent (App:=App) sel (on_send_error this e).
Proof.
  unfold on_send_error. destruct (String.eqb _ _); [|apply silent_throw].
  apply silent_bind; [apply sends_debugLog|]. intros; apply silent_throw.
Qed.

Lemma appends_send_request this payload id :
  appends (App:=App) sel [EFetch (request_of (client_config this) payload)]
    (send_request this payload id).
Proof.
  unfold send_request. apply appends_bind_silent; [apply appends_fetch|].
  intros response.
  apply silent_bind; [apply silent_effect; intros; apply sends_clearTimeout|].
  intros _. destruct (negb (resp_ok response)).
  - apply silent_bind; [|intros; apply silent_throw].
    repeat (match goal with |- context [if ?c then _ else _] => destruct c end);
      first [apply sends_debugLog | apply silent_ret].
  - apply silent_bind; [by intros w0|]. intros data.
    apply silent_bind; [apply sends_debugLog|]. intros; apply silent_ret.
Qed.

(** One attempt sends one request, the one built from the payload. *)
Lemma send_attempt_sends this payload :
  appends (App:=App) sel [EFetch (request_of (client_config this) payload)]
    (send_attempt this payload).
Proof.
  intros w. unfold send_attempt, bind at 1, debugLog, effect.
  unfold bind at 1, setTimeout.
  match goal with
  | |- context [try_finally ?b ?c ?w2] =>
      rewrite (appends_try_finally sel _ b c
                 (appends_try_catch sel _ _ _
                    (appends_send_request this payload _)
                    (silent_on_send_error this))
                 (sends_clearTimeout _) w2)
  end.
  f_equal. simpl. rewrite List.filter_app. simpl.
  rewrite (Hoff (ESetTimeout _ _)) by done. rewrite app_nil_r.
  apply filter_logged. intros; by apply Hoff.
Qed.

End Sends.

Lemma is_retry_not_fetch e : is_retry e = true -> is_fetch e = false.
Proof. by destruct e. Qed.

Lemma is_fetch_only e : is_transport e = true -> is_fetch e = false -> is_fetch e = false.
Proof. done. Qed.

Lemma send_attempt_keeps_engine_view this payload :
  keeps_engine_view (App:=App) (send_attempt this payload).
Proof.
  apply (silent_send_attempt is_engine). by intros [].
Qed.

(** The requests of one delivery. *)
Lemma sendEvent_sends this payload w :
  exists n : nat,
    (n <= Z.to_nat (maxRetries (retryHandler this) + 1))%nat
    /\ (0 <= maxRetries (retryHandler this) -> (1 <= n)%nat)
    /\ attempts (trace (snd (sendEvent this payload w))) = (attempts (trace w) + n)%nat
    /\ requests (trace (snd (sendEvent this payload w)))
       = requests (trace w)
         ++ replicate n (EFetch (request_of (client_config this) payload)).
Proof.
  unfold sendEvent, bind, effect, execute.
  destruct (execute_loop_appends (retryHandler this) (send_attempt this payload)
              is_fetch [EFetch (request_of (client_config this) payload)]
              is_retry_not_fetch (send_attempt_keeps_engine_view this payload)
              (send_attempt_sends is_fetch is_fetch_only (fun _ => eq_refl)
                 this payload)
              (Z.to_nat (maxRetries (retryHandler this) + 1)) 0 None
              (record (ESendEvent payload) w))
    as (n & Hle & Hpos & Hn & Hview).
  exists n. rewrite concat_replicate_one in Hview.
  split_and!; [done| |rewrite Hn; cbn [trace record]; by rewrite attempts_snoc|].
  - intros Hr. assert (n <> O) by (apply Hpos; lia). lia.
  - unfold requests. by rewrite Hview, filter_record_off.
Qed.

(** X6. Every request of a delivery is a POST to the configured
    endpoint with the content-type and x-api-key headers and the payload
    as its body; a delivery sends at most [maxRetries + 1] of them, and at
    least one unless [maxRetries] is negative. *)
Theorem sendEvent_requests this payload w :
  exists n : nat,
    (n <= Z.to_nat (maxRetries (retryHandler this) + 1))%nat
    /\ (0 <= maxRetries (retryHandler this) -> (1 <= n)%nat)
    /\ requests (trace (snd (sendEvent this payload w)))
       = requests (trace w)
         ++ replicate n
              (EFetch {| req_url := endpoint (client_config this);
                         req_method := "POST";
                         req_headers := [("Content-Type", "application/json");
                                         ("x-api-key", apiKey (client_config this))];
                         req_body := payload |}).
Proof.
  destruct (sendEvent_sends this payload w) as (n & Hle & Hpos & _ & Hview).
  by exists n.
Qed.

End ClientMore.

(** ** The transport: outcomes of an attempt *)

Section ClientOutcomes.

Context {App : Type}.
Implicit Types (w : World App) (this : APIClient).

(** What the request and its error handling leave alone: any
    observation of the world that does not look at the trace, the list of
    pending timers, the clock or the number of requests. *)
Lemma send_body_frame {X} (f : World App -> X) this payload id :
  (forall e w, f (record e w) = f w) ->
  (forall ts w, f (set_timers (next_timer w) ts w) = f w) ->
  (forall d w, f (elapse d w) = f w) ->
  (forall req w, f (issue req w) = f w) ->
  preserves f (try_catch (send_request this payload id) (on_send_error this)).
Proof.
  intros Hrec Htim Hela Hiss.
  assert (forall d m a, preserves f (debugLog (App:=App) d m a)) as Hlog.
  { intros d m a. apply (preserves_effect f). intros w. unfold logged.
    destruct d; [apply Hrec|done]. }
  assert (forall i w, f (clearTimeout i w) = f w) as Hclear
    by (intros; unfold clearTimeout; by rewrite Hrec, Htim).
  apply (preserves_try_catch f).
  - unfold send_request. apply (preserves_bind f).
    { intros w. unfold fetch. destruct (pending_delay _ _) as [delay|].
      - destruct (delay <? _).
        + cbn [snd]. rewrite Hrec, Hela.
          change (next_timer (issue ?r w)) with (next_timer (issue r w)).
          by rewrite (Htim _ (issue _ w)), Hiss.
        + destruct (network w (fetched w)); cbn [snd]; by rewrite Hela, Hiss.
      - destruct (network w (fetched w)); cbn [snd]; by rewrite Hela, Hiss. }
    intros response. apply (preserves_bind f).
    { apply (preserves_effect f). apply Hclear. }
    intros _. destruct (negb (resp_ok response)).
    + apply (preserves_bind f); [|intros; apply preserves_throw].
      repeat (match goal with |- context [if ?c then _ else _] => destruct c end);
        first [apply Hlog | apply preserves_ret].
    + apply (preserves_bind f); [by intros w|]. intros data.
      apply (preserves_bind f); [apply Hlog|]. intros; apply preserves_ret.
  - intros e. unfold on_send_error. destruct (String.eqb _ _); [|apply preserves_throw].
    apply (preserves_bind f); [apply Hlog|]. intros; apply preserves_throw.
Qed.

(** What a whole attempt leaves alone: the same, for observations that
    do not look at the timer ids either. *)
Lemma send_attempt_frame {X} (f : World App -> X) this payload :
  (forall e w, f (record e w) = f w) ->
  (forall n ts w, f (set_timers n ts w) = f w) ->
  (forall d w, f (elapse d w) = f w) ->
  (forall req w, f (issue req w) = f w) ->
  preserves f (send_attempt this payload).
Proof.
  intros Hrec Htim Hela Hiss.
  unfold send_attempt. apply (preserves_bind f).
  { apply (preserves_effect f). intros w. unfold logged.
    destruct (debug _); [apply Hrec|done]. }
  intros _. apply (preserves_bind f).
  { intros w. unfold setTimeout. cbn [snd]. by rewrite Hrec, Htim. }
  intros id. apply (preserves_try_finally f).
  - apply send_body_frame; [done| |done..]. intros; apply Htim.
  - intros w. unfold clearTimeout. by rewrite Hrec, Htim.
Qed.

(** An attempt uses up one timer id. *)
Lemma send_attempt_next_timer this payload w :
  next_timer (snd (send_attempt this payload w)) = S (next_timer w).
Proof.
  unfold send_attempt, bind at 1, debugLog, effect.
  destruct (logged_fields (debug (client_config this)) "Sending event:"
              [LPayload payload] w) as (_ & _ & Hn & _).
  unfold bind, setTimeout, try_finally.
  match goal with
  | |- context [try_catch (send_request this payload ?id) ?h ?w2] =>
      pose proof (send_body_frame next_timer this payload id
                    (fun _ _ => eq_refl) (fun _ _ => eq_refl) (fun _ _ => eq_refl)
                    (fun _ _ => eq_refl) w2) as H;
        destruct (try_catch (send_request this payload id) h w2) as [r w3]
  end.
  cbn [snd] in *. unfold clearTimeout. cbn [next_timer record set_timers] in *.
  by rewrite H, Hn.
Qed.

Lemma send_attempt_network this payload w :
  network (snd (send_attempt this payload w)) = network w.
Proof. by apply (send_attempt_frame network). Qed.

(** How an attempt ends when the request settles before the timer. *)
Lemma send_attempt_settled this payload w :
  latency_of (network w (fetched w)) <= timer_delay (timeout (client_config this)) ->
  fst (send_attempt this payload w)
  = match network w (fetched w) with
    | NetworkFailure _ reason => fst (on_send_error this reason w)
    | Responds _ response =>
        if negb (resp_ok response) then Rejected (http_error response)
        else match resp_json response with
             | Resolved ack => Resolved ack
             | Rejected e => fst (on_send_error this e w)
             end
    end.
Proof.
  intros Hintime. apply Z.ltb_ge in Hintime.
  assert (forall e (w0 w0' : World App),
             fst (on_send_error this e w0) = fst (on_send_error this e w0'))
    as Hcatch.
  { intros e w0 w0'. unfold on_send_error. by destruct (String.eqb _ _). }
  unfold send_attempt, bind at 1, debugLog, effect.
  set (w1 := logged _ _ _ w).
  destruct (logged_fields (debug (client_config this)) "Sending event:"
              [LPayload payload] w) as (Hnet & Hf & _).
  fold w1 in Hnet, Hf.
  unfold bind at 1, setTimeout, try_finally, try_catch, send_request, bind at 1, fetch.
  cbn [issue record set_timers timers network fetched next_timer].
  rewrite pending_delay_head, Hnet, Hf, Hintime.
  destruct (network w (fetched w)) as [l reason|l response].
  - match goal with
    | |- context [on_send_error this reason ?w0] =>
        rewrite (Hcatch reason w w0); by destruct (on_send_error this reason w0)
    end.
  - unfold bind at 1, effect. destruct (resp_ok response); cbn [negb].
    + unfold bind at 1. destruct (resp_json response) as [ack|e].
      * unfold bind, debugLog, effect, ret. reflexivity.
      * match goal with
        | |- context [on_send_error this e ?w0] =>
            rewrite (Hcatch e w w0); by destruct (on_send_error this e w0)
        end.
    + match goal with
      | |- context [bind ?m ?k ?w0] =>
          assert (exists w', bind m k w0 = (Rejected (http_error response), w')) as [w' ->]
      end.
      { unfold bind, throw, http_error.
        match goal with
        | |- context [(if ?c then ?x else ?y) ?w0] =>
            assert (exists w', (if c then x else y) w0 = (Resolved tt, w')) as [w' ->]
        end.
        { repeat (match goal with |- context [if ?c then _ else _] => destruct c end);
            by eexists. }
        eexists. f_equal. f_equal. f_equal.
        destruct (resp_text response) as [body|]; [done|].
        reflexivity. }
      unfold on_send_error. cbn [http_error err_name].
      change (String.eqb "Error" "AbortError") with false. reflexivity.
Qed.

End ClientOutcomes.

Section ClientTheorems.

Context {App : Type}.
Implicit Types (w : World App) (this : APIClient).

(** X7. How an attempt ends when its request settles no later than the
    abort timer fires, that is, within the timeout when the timeout is a
    delay the host's timers honour (at most [2^31 - 1] ms), and within
    1 ms when it is larger.  A network failure is thrown on as it is.  A response that is
    not ok becomes an Error whose status is the HTTP status and whose
    message is 'HTTP <status>: <body>', with the status text in place of
    a body that is empty or cannot be read.  An ok response gives the
    parsed body as it is, and a body that does not parse makes the attempt
    fail with the parse error.  (An error named AbortError is replaced by
    the timeout error wherever it comes from.) *)
Theorem send_attempt_in_time this payload w :
  latency_of (network w (fetched w)) <= timer_delay (timeout (client_config this)) ->
  let rethrown (e : JsError) : outcome DeliveryAck :=
    if String.eqb (err_name e) "AbortError"
    then Rejected (Error ("Request timeout after " +:+
                          pretty (timeout (client_config this)) +:+ "ms"))
    else Rejected e in
  fst (send_attempt this payload w)
  = match network w (fetched w) with
    | NetworkFailure _ reason => rethrown reason
    | Responds _ response =>
        if negb (resp_ok response) then
          Rejected
            {| err_name := "Error";
               err_message :=
                 Some ("HTTP " +:+ pretty (resp_status response) +:+ ": " +:+
                       match resp_text response with
                       | Some body =>
                           if String.eqb body "" then resp_statusText response
                           else body
                       | None => resp_statusText response
                       end);
               err_status := Some (resp_status response) |}
        else match resp_json response with
             | Resolved ack => Resolved ack
             | Rejected e => rethrown e
             end
    end.
Proof.
  intros Hintime rethrown.
  assert (forall e w0, fst (on_send_error (App:=App) this e w0) = rethrown e) as Hcatch.
  { intros e w0. unfold on_send_error, rethrown. by destruct (String.eqb _ _). }
  rewrite (send_attempt_settled this payload w Hintime).
  destruct (network w (fetched w)) as [l reason|l response]; [apply Hcatch|].
  destruct (negb (resp_ok response)); [reflexivity|].
  destruct (resp_json response); [reflexivity|apply Hcatch].
Qed.

(** X8. A delivery whose first request is answered, no later than the
    abort timer fires, with an ok response and a body that parses resolves
    to the parsed body after exactly one request, without waiting or
    retrying.  The timer fires after the timeout when that is at most
    [2^31 - 1] ms, and after 1 ms when it is larger. *)
Theorem sendEvent_first_try this payload w latency response ack :
  0 <= maxRetries (retryHandler this) ->
  network w (fetched w) = Responds latency response ->
  latency <= timer_delay (timeout (client_config this)) ->
  resp_ok response = true ->
  resp_json response = Resolved ack ->
  fst (sendEvent this payload w) = Resolved ack
  /\ requests (trace (snd (sendEvent this payload w)))
     = requests (trace w) ++ [EFetch (request_of (client_config this) payload)]
  /\ engine_view (trace (snd (sendEvent this payload w)))
     = engine_view (trace w) ++ [EAttempt 0].
Proof.
  intros Hr Hnet Hintime Hok Hjson.
  unfold sendEvent, bind, effect, execute.
  replace (Z.to_nat (maxRetries (retryHandler this) + 1))
    with (S (Z.to_nat (maxRetries (retryHandler this)))) by lia.
  rewrite execute_loop_step.
  set (w0 := record (EAttempt 0) (record (ESendEvent payload) w)).
  pose proof (send_attempt_settled this payload w0) as Hfst.
  pose proof (send_attempt_sends is_fetch is_fetch_only (fun _ => eq_refl)
                this payload w0) as Hreq.
  pose proof (send_attempt_keeps_engine_view this payload w0) as Hview.
  change (network w0 (fetched w0)) with (network w (fetched w)) in Hfst.
  rewrite Hnet, Hok, Hjson in Hfst. cbn [negb latency_of] in Hfst.
  specialize (Hfst Hintime).
  destruct (send_attempt this payload w0) as [r w1]. cbn [fst snd] in *. subst r.
  cbn [fst snd]. split; [done|]. split.
  - unfold requests. rewrite Hreq. unfold w0. by rewrite !filter_record_off.
  - rewrite Hview. unfold w0. cbn [trace record].
    by rewrite !engine_view_app, app_nil_r.
Qed.

(** X9. When every request takes longer than the timeout, a delivery
    sends exactly [maxRetries + 1] requests, each aborted, and rejects
    with the timeout error. *)
Theorem sendEvent_always_too_slow this payload w :
  0 <= maxRetries (retryHandler this) ->
  (forall n, timeout (client_config this) < latency_of (network w n)) ->
  fst (sendEvent this payload w)
  = Rejected (Error ("Request timeout after " +:+
                     pretty (timeout (client_config this)) +:+ "ms"))
  /\ requests (trace (snd (sendEvent this payload w)))
     = requests (trace w)
       ++ replicate (Z.to_nat (maxRetries (retryHandler this) + 1))
            (EFetch (request_of (client_config this) payload)).
Proof.
  intros Hr Hslow.
  destruct (sendEvent_sends this payload w) as (n & _ & _ & Hn & Hreq).
  set (Inv := fun w0 : World App =>
                forall k, timeout (client_config this) < latency_of (network w0 k)).
  assert (exists e wl w1,
             Inv wl /\ send_attempt this payload wl = (Rejected e, w1)
             /\ sendEvent this payload w
                = (Rejected e,
                   logged (rh_debug (retryHandler this))
                     ("Max retries (" +:+ pretty (maxRetries (retryHandler this))
                      +:+ ") reached, giving up") [] w1)
             /\ attempts (trace w1)
                = (attempts (trace w) + S (Z.to_nat (maxRetries (retryHandler this))))%nat)
    as (e & wl & w1 & Hwl & Hlast & Hrun & Hcount).
  { unfold sendEvent, bind, effect, execute.
    replace (Z.to_nat (maxRetries (retryHandler this) + 1))
      with (S (Z.to_nat (maxRetries (retryHandler this)))) by lia.
    destruct (execute_loop_exhausts_on (retryHandler this) (send_attempt this payload) Inv
                (send_attempt_keeps_engine_view this payload))
      with (remaining := Z.to_nat (maxRetries (retryHandler this))) (attempt := 0)
           (lastError := @None JsError) (w := record (ESendEvent payload) w)
      as (e & wl & w1 & Hwl & Hlast & Hrun & Hcount).
    - by intros e0 w0 Hw0.
    - by intros d w0 Hw0.
    - intros w0 Hw0.
      destruct (send_attempt_times_out this payload w0
                  (timer_delay_lt _ _ (Hw0 (fetched w0))))
        as (w3 & Hout & _).
      eexists _, w3. split; [exact Hout|]. split; [apply retryable_without_status|].
      intros k. pose proof (send_attempt_network this payload w0) as Hnet.
      rewrite Hout in Hnet. cbn [snd] in Hnet. rewrite Hnet. apply Hw0.
    - exact Hslow.
    - lia.
    - exists e, wl, w1. split_and!; [done..|].
      rewrite Hcount. cbn [trace record]. rewrite attempts_snoc. simpl. lia. }
  destruct (send_attempt_times_out this payload wl (timer_delay_lt _ _ (Hwl (fetched wl))))
    as (w3 & Hout & _).
  rewrite Hout in Hlast. injection Hlast as <- _.
  rewrite Hrun in Hn, Hreq |- *. cbn [fst snd] in *.
  rewrite attempts_logged, Hcount in Hn.
  assert (n = S (Z.to_nat (maxRetries (retryHandler this)))) as -> by lia.
  split; [done|].
  replace (Z.to_nat (maxRetries (retryHandler this) + 1))
    with (S (Z.to_nat (maxRetries (retryHandler this)))) by lia.
  exact Hreq.
Qed.

(** X19. A timeout above [2^31 - 1] ms does not give the request more
    time but less: the abort timer then fires after 1 ms, so a request
    that takes longer than 1 ms is aborted and the attempt fails with the
    timeout error, whose message still names the configured value. *)
Theorem send_attempt_timer_overflow this payload w :
  2147483647 < timeout (client_config this) ->
  1 < latency_of (network w (fetched w)) ->
  fst (send_attempt this payload w)
  = Rejected (Error ("Request timeout after " +:+
                     pretty (timeout (client_config this)) +:+ "ms"))
  /\ In (EAbort (next_timer w)) (trace (snd (send_attempt this payload w))).
Proof.
  intros Hbig Hlate.
  destruct (send_attempt_times_out this payload w) as (w3 & Hout & Habort).
  { unfold timer_delay.
    by replace (2147483647 <? timeout (client_config this)) with true
      by (symmetry; apply Z.ltb_lt; lia). }
  rewrite Hout. by split.
Qed.

End ClientTheorems.

(** ** The tracker, further *)

Section TrackerMore.

Context {App : Type}.
Implicit Types (w : World App) (this : MCPTracker).

(** After [track], anything a console line does not change is as the
    delivery left it. *)
Lemma track_observes {X} (f : World App -> X) this toolName eventType metadata
    durationMs w :
  (forall d m a w0, f (logged d m a w0) = f w0) ->
  f (snd (track this toolName eventType metadata durationMs w))
  = f (snd (sendEvent (client this)
              (payload_of toolName eventType metadata durationMs) w)).
Proof.
  intros Hlog. unfold track, try_catch, bind at 1. rewrite payload_of_args.
  destruct (sendEvent (client this) _ w) as [[ack|e] w1]; [done|].
  unfold bind, debugLog, effect, ret. cbn [snd]. apply Hlog.
Qed.

Lemma requests_logged d m a w :
  requests (trace (logged d m a w)) = requests (trace w).
Proof. unfold requests. by apply filter_logged. Qed.

(** The requests of one tracking call. *)
Lemma track_sends this toolName eventType metadata durationMs w :
  exists n : nat,
    (n <= Z.to_nat (maxRetries (retryHandler (client this)) + 1))%nat
    /\ (0 <= maxRetries (retryHandler (client this)) -> (1 <= n)%nat)
    /\ requests (trace (snd (track this toolName eventType metadata durationMs w)))
       = requests (trace w)
         ++ replicate n
              (EFetch (request_of (client_config (client this))
                         (payload_of toolName eventType metadata durationMs))).
Proof.
  destruct (sendEvent_sends (client this)
              (payload_of toolName eventType metadata durationMs) w)
    as (n & Hle & Hpos & _ & Hreq).
  exists n. split_and!; [done..|].
  rewrite (track_observes (fun w0 => requests (trace w0)));
    [exact Hreq|intros; apply requests_logged].
Qed.

(** X10. A tracker configured with [retries: 0] sends exactly one
    request per tracking call, whatever the network does with it. *)
Theorem track_without_retries (c : MCPTrackerConfig) toolName eventType metadata
    durationMs w :
  cfg_retries c = Some 0 ->
  requests (trace (snd (track (new_MCPTracker c) toolName eventType metadata
                          durationMs w)))
  = requests (trace w)
    ++ [EFetch (request_of (config (new_MCPTracker c))
                  (payload_of toolName eventType metadata durationMs))].
Proof.
  intros Hc.
  destruct (track_sends (new_MCPTracker c) toolName eventType metadata durationMs w)
    as (n & Hle & Hpos & Hreq).
  cbn [new_MCPTracker client new_APIClient retryHandler maxRetries retries
       client_config] in Hle, Hpos, Hreq.
  rewrite Hc in Hle, Hpos. simpl in Hle, Hpos.
  assert (n = 1%nat) as -> by (specialize (Hpos ltac:(lia)); lia).
  exact Hreq.
Qed.

(** X11. A tracker configured with a negative [retries] never sends
    anything: every tracking call resolves to a failure carrying the
    handler's 'Unexpected error in retry handler', without a single
    attempt or request. *)
Theorem track_with_negative_retries (c : MCPTrackerConfig) (r : Z) toolName
    eventType metadata durationMs w :
  cfg_retries c = Some r ->
  r < 0 ->
  fst (track (new_MCPTracker c) toolName eventType metadata durationMs w)
  = Resolved {| success := false;
                error := Some (Error "Unexpected error in retry handler") |}
  /\ requests (trace (snd (track (new_MCPTracker c) toolName eventType metadata
                             durationMs w)))
     = requests (trace w)
  /\ attempts (trace (snd (track (new_MCPTracker c) toolName eventType metadata
                             durationMs w)))
     = attempts (trace w).
Proof.
  intros Hc Hr.
  assert (forall payload w0,
             sendEvent (App:=App) (client (new_MCPTracker c)) payload w0
             = (Rejected (Error "Unexpected error in retry handler"),
                record (ESendEvent payload) w0)) as Hsend.
  { intros payload w0. unfold sendEvent, bind, effect.
    rewrite execute_negative; [done|].
    cbn [new_MCPTracker client new_APIClient retryHandler maxRetries retries].
    rewrite Hc. exact Hr. }
  split; [|split].
  - unfold track, try_catch, bind at 1. rewrite payload_of_args, Hsend.
    unfold bind, debugLog, effect, ret. reflexivity.
  - rewrite (track_observes (fun w0 => requests (trace w0)))
      by (intros; apply requests_logged).
    rewrite Hsend. cbv beta. cbn [snd]. unfold requests. by rewrite filter_record_off.
  - rewrite (track_observes (fun w0 => attempts (trace w0)))
      by (intros; apply attempts_logged).
    rewrite Hsend. cbv beta. cbn [snd trace record]. by rewrite attempts_snoc.
Qed.

Lemma drop_timer_fresh (id : nat) (ts : list (nat * Z)) :
  Forall (fun t => (fst t < id)%nat) ts -> drop_timer id ts = ts.
Proof.
  unfold drop_timer. induction 1 as [|[i d] ts Hi _ IH]; [done|].
  simpl in *. replace (Nat.eqb i id) with false by (symmetry; apply Nat.eqb_neq; lia).
  simpl. by rewrite IH.
Qed.

(** X12. A tracking call leaves no timer behind: with the timers of
    other components pending (under ids handed out earlier), the pending
    timers after the call are those before it, however many attempts were
    made and however each ended. *)
Theorem track_leaves_no_timer this toolName eventType metadata durationMs w :
  timers_fresh w ->
  timers (snd (track this toolName eventType metadata durationMs w)) = timers w
  /\ timers_fresh (snd (track this toolName eventType metadata durationMs w)).
Proof.
  intros Hfresh.
  set (Inv := fun w0 : World App => timers w0 = timers w /\ timers_fresh w0).
  assert (Inv (snd (track this toolName eventType metadata durationMs w))) as [H1 H2];
    [|by split].
  assert (forall d m a w0, Inv w0 -> Inv (logged d m a w0)) as Hlog.
  { intros d m a w0. unfold Inv, timers_fresh, logged. by destruct d. }
  unfold track, try_catch, bind at 1. rewrite payload_of_args.
  set (payload := payload_of _ _ _ _).
  assert (Inv (snd (sendEvent (client this) payload w))) as Hsend.
  { unfold sendEvent, bind, effect, execute. apply execute_loop_keeps.
    - by intros e w0.
    - by intros d w0.
    - intros w0 [Ht Hf]. unfold Inv, timers_fresh.
      rewrite send_attempt_timers, send_attempt_next_timer.
      rewrite drop_timer_fresh by exact Hf. split; [done|].
      eapply Forall_impl; [exact Hf|]. simpl. intros; lia.
    - by split. }
  destruct (sendEvent (client this) payload w) as [[ack|e] w1]; [done|].
  unfold bind, debugLog, effect, ret. cbn [snd] in *. by apply Hlog.
Qed.

End TrackerMore.

(** ** Console output *)

Section Quiet.

Context {App : Type}.
Implicit Types (w : World App).

Lemma preserves_try_catch_assigning {X V A} (f : World App -> X) (init : V)
    (first : M App V) (rest : V -> M App A) (handler : V -> JsError -> M App A) :
  preserves f first -> (forall x, preserves f (rest x)) ->
  (forall x e, preserves f (handler x e)) ->
  preserves f (try_catch_assigning init first rest handler).
Proof.
  intros Hfirst Hrest Hhandler w. unfold try_catch_assigning.
  specialize (Hfirst w). destruct (first w) as [[x|e] w1]; cbn [snd] in *.
  - specialize (Hrest x w1). destruct (rest x w1) as [[a|e] w2]; cbn [snd] in *.
    + by rewrite Hrest.
    + by rewrite (Hhandler x e w2), Hrest.
  - by rewrite (Hhandler init e w1).
Qed.

Lemma quiet_debugLog message args :
  silent (App:=App) is_log (debugLog false message args).
Proof. by intros w. Qed.

Lemma quiet_execute_loop {T} this (fn : M App T) :
  rh_debug this = false ->
  silent is_log fn ->
  forall remaining attempt lastError,
    silent is_log (execute_loop this fn remaining attempt lastError).
Proof.
  intros Hoff Hfn. induction remaining as [|remaining IH]; intros attempt lastError.
  - apply silent_throw.
  - cbn [execute_loop]. rewrite Hoff. apply silent_try_catch.
    + apply silent_bind; [|done]. apply silent_effect. intros w.
      by apply filter_record_off.
    + intros e. destruct (negb (isRetryableError e)).
      { apply silent_bind; [apply quiet_debugLog|intros; apply silent_throw]. }
      destruct (attempt =? maxRetries this).
      { apply silent_bind; [apply quiet_debugLog|intros; apply silent_throw]. }
      apply silent_bind; [apply quiet_debugLog|]. intros _.
      apply silent_bind; [|intros; apply IH].
      apply silent_effect. intros w. unfold elapse. simpl.
      rewrite List.filter_app. simpl. by rewrite app_nil_r.
Qed.

Lemma quiet_send_attempt (this : APIClient) payload :
  debug (client_config this) = false ->
  silent (App:=App) is_log (send_attempt this payload).
Proof.
  intros Hoff.
  assert (forall id w, List.filter is_log (trace (clearTimeout id w))
                       = List.filter is_log (trace w)) as Hclear
    by (intros; unfold clearTimeout; by rewrite filter_record_off).
  unfold send_attempt, send_request, on_send_error. rewrite Hoff.
  apply silent_bind; [apply quiet_debugLog|]. intros _.
  apply silent_bind.
  { intros w. unfold setTimeout. simpl. rewrite List.filter_app. simpl.
    by rewrite app_nil_r. }
  intros timeoutId. apply silent_try_finally; [|apply Hclear].
  apply silent_try_catch.
  - apply silent_bind.
    { intros w. unfold fetch.
      assert (forall req, List.filter is_log (trace (issue req w))
                          = List.filter is_log (trace w)) as Hissue
        by (intros; unfold issue; by rewrite filter_record_off).
      destruct (pending_delay _ _) as [delay|].
      - destruct (delay <? _).
        + cbn [snd]. rewrite filter_record_off by done. apply Hissue.
        + destruct (network w (fetched w)); apply Hissue.
      - destruct (network w (fetched w)); apply Hissue. }
    intros response.
    apply silent_bind; [apply silent_effect; apply Hclear|].
    intros _. destruct (negb (resp_ok response)).
    + apply silent_bind; [|intros; apply silent_throw].
      repeat (match goal with |- context [if ?c then _ else _] => destruct c end);
        first [apply quiet_debugLog | apply silent_ret].
    + apply silent_bind; [by intros w0|]. intros data.
      apply silent_bind; [apply quiet_debugLog|]. intros; apply silent_ret.
  - intros e. destruct (String.eqb _ _); [|apply silent_throw].
    apply silent_bind; [apply quiet_debugLog|]. intros; apply silent_throw.
Qed.

Lemma quiet_track (this : MCPTracker) toolName eventType metadata durationMs :
  debug_off this ->
  silent (App:=App) is_log (track this toolName eventType metadata durationMs).
Proof.
  intros (Hconfig & Hclient & Hretry). unfold track. rewrite Hconfig.
  apply silent_try_catch.
  - apply silent_bind; [|intros; apply silent_ret].
    unfold sendEvent. apply silent_bind.
    + apply silent_effect. intros w. by apply filter_record_off.
    + intros _. unfold execute. apply quiet_execute_loop; [done|].
      by apply quiet_send_attempt.
  - intros e. apply silent_bind; [apply quiet_debugLog|intros; apply silent_ret].
Qed.

Lemma quiet_extract (this : MCPTracker) what toolName
    (call : option (HostFn App MCPMetadata)) :
  debug_off this ->
  silent is_log (extract this what toolName call).
Proof.
  intros (Hconfig & _). unfold extract. destruct call as [call|]; [|apply silent_ret].
  rewrite Hconfig. apply silent_try_catch.
  - apply silent_bind; [apply silent_liftH|intros; apply silent_ret].
  - intros e. apply silent_bind; [apply quiet_debugLog|intros; apply silent_ret].
Qed.

Lemma quiet_wrap {TParams TMeta TResult} (this : MCPTracker) toolName
    (fn : TParams -> option TMeta -> HostFn App TResult)
    (options : WrapOptions App TParams TMeta TResult) params meta :
  debug_off this ->
  silent is_log (wrap this toolName fn options params meta).
Proof.
  intros Hoff. unfold wrap. apply silent_bind; [apply silent_dateNow|].
  intros startTime.
  apply (preserves_try_catch_assigning (fun w => List.filter is_log (trace w))).
  - by apply quiet_extract.
  - intros invocationMetadata. apply silent_bind.
    { destruct (default true (opt_trackInvocation options)); [|apply silent_ret].
      apply silent_bind; [by apply quiet_track|intros; apply silent_ret]. }
    intros _. apply silent_bind.
    { apply silent_bind; [|intros; apply silent_liftH].
      apply silent_effect. intros w. by apply filter_record_off. }
    intros result. apply silent_bind; [apply silent_dateNow|]. intros now.
    apply silent_bind; [by apply quiet_extract|]. intros outputMetadata.
    apply silent_bind; [by apply quiet_track|]. intros; apply silent_ret.
  - intros invocationMetadata e. apply silent_bind; [apply silent_dateNow|].
    intros now. apply silent_bind; [by apply quiet_extract|]. intros errorMetadata.
    apply silent_bind; [by apply quiet_track|]. intros _.
    destruct (default true (opt_rethrowErrors options));
      [apply silent_throw|apply silent_ret].
Qed.

(** X13. Unless [debug: true] is configured the SDK writes nothing to
    the console: neither a tracking call nor a wrapped call adds a console
    line, whatever the network, the wrapped function and the extractors
    do. *)
Theorem silent_without_debug {TParams TMeta TResult} (c : MCPTrackerConfig)
    toolName (fn : TParams -> option TMeta -> HostFn App TResult)
    (options : WrapOptions App TParams TMeta TResult) params meta w :
  cfg_debug c = None \/ cfg_debug c = Some false ->
  List.filter is_log
    (trace (snd (wrap (new_MCPTracker c) toolName fn options params meta w)))
  = List.filter is_log (trace w)
  /\ (forall eventType metadata durationMs,
        List.filter is_log
          (trace (snd (track (new_MCPTracker c) toolName eventType metadata
                         durationMs w)))
        = List.filter is_log (trace w)).
Proof.
  intros Hc.
  assert (debug_off (new_MCPTracker c)) as Hoff.
  { unfold debug_off. simpl. by destruct Hc as [-> | ->]. }
  split; [by apply quiet_wrap|]. intros. by apply quiet_track.
Qed.

End Quiet.

(** ** The wrapper, further *)

Section WrapMore.

Context {App TParams TMeta TResult : Type}.
Implicit Types (w : World App) (this : MCPTracker)
  (options : WrapOptions App TParams TMeta TResult).

(** X14. A wrapped call hands back what the function gave, whatever the
    options, the extractors and the network do: the function's result when
    it resolved; when it rejected, its error, or [undefined] with
    [rethrowErrors: false].  So a wrapped call rejects only if the function
    did, and only with the function's own error. *)
Theorem wrap_transparent this toolName
    (fn : TParams -> option TMeta -> HostFn App TResult) options params meta w :
  fst (wrap this toolName fn options params meta w)
  = match fst (fn params meta (host (before_call this toolName options params meta w)))
    with
    | Resolved result => Resolved (Some result)
    | Rejected e =>
        if default true (opt_rethrowErrors options) then Rejected e
        else Resolved None
    end.
Proof.
  pose proof (wrap_boundary this toolName fn options params meta w) as H.
  unfold before_call. cbv zeta in H |- *.
  match type of H with
  | match fn params meta ?h with _ => _ end =>
      destruct (fn params meta h) as [[result|e] h3]
  end; exact (proj1 H).
Qed.

Lemma silent_extract (sel : Effect -> bool) this what toolName
    (call : option (HostFn App MCPMetadata)) :
  (forall m a, sel (ELog m a) = false) ->
  silent sel (extract this what toolName call).
Proof.
  intros Hsel. unfold extract. destruct call as [call|]; [|apply silent_ret].
  apply silent_try_catch.
  - apply silent_bind; [apply silent_liftH|intros; apply silent_ret].
  - intros e. apply silent_bind; [by apply silent_debugLog|intros; apply silent_ret].
Qed.

(** X15. With [trackInvocation: false] nothing is delivered or sent
    before the function is called: the call of the function is followed by
    the one delivery of the wrapped call, the success or failure event. *)
Theorem wrap_without_invocation this toolName
    (fn : TParams -> option TMeta -> HostFn App TResult) options params meta w :
  opt_trackInvocation options = Some false ->
  let a := fragment_of ((fun g => g params meta) <$> getMetadata options) (host w) in
  let w2 := before_call this toolName options params meta w in
  let b :=
    match fn params meta (host w2) with
    | (Resolved result, h') =>
        fragment_of ((fun g => g result) <$> getOutputMetadata options) h'
    | (Rejected e, h') =>
        fragment_of ((fun g => g e) <$> getErrorMetadata options) h'
    end in
  requests (trace w2) = requests (trace w)
  /\ boundary_view (trace w2) = boundary_view (trace w)
  /\ boundary_view (trace (snd (wrap this toolName fn options params meta w)))
     = boundary_view (trace w) ++
       [ECallFn;
        ESendEvent
          (payload_of toolName
             (if rejected (fst (fn params meta (host w2))) then Failure else Success)
             (Some (mergeMetadata [a; b]))
             (Some (clock (snd (fn params meta (host w2))) - clock (host w))))].
Proof.
  intros Hoff a w2 b.
  pose proof (wrap_boundary this toolName fn options params meta w) as H.
  subst a w2 b. unfold before_call. cbv zeta in H |- *.
  rewrite Hoff in H |- *. cbn [default from_option id] in H |- *.
  split; [|split].
  - apply (silent_extract is_fetch). done.
  - apply (silent_extract is_boundary). done.
  - match type of H with
    | match fn params meta ?h with _ => _ end =>
        destruct (fn params meta h) as [[result|e] h3]
    end; exact (proj2 H).
Qed.

Lemma is_retry_not_exchange e : is_retry e = true -> is_exchange e = false.
Proof. by destruct e. Qed.

Lemma is_exchange_transport e :
  is_transport e = true -> is_fetch e = false -> is_exchange e = false.
Proof. by destruct e. Qed.

(** The deliveries and requests of one tracking call. *)
Lemma track_exchange this toolName eventType metadata durationMs w :
  exists n : nat,
    (n <= Z.to_nat (maxRetries (retryHandler (client this)) + 1))%nat
    /\ List.filter is_exchange
         (trace (snd (track this toolName eventType metadata durationMs w)))
       = List.filter is_exchange (trace w)
         ++ ESendEvent (payload_of toolName eventType metadata durationMs)
            :: replicate n
                 (EFetch (request_of (client_config (client this))
                            (payload_of toolName eventType metadata durationMs))).
Proof.
  set (payload := payload_of toolName eventType metadata durationMs).
  rewrite (track_observes (fun w0 => List.filter is_exchange (trace w0)))
    by (intros; by apply filter_logged).
  fold payload. unfold sendEvent, bind, effect, execute.
  destruct (execute_loop_appends (retryHandler (client this))
              (send_attempt (client this) payload)
              is_exchange [EFetch (request_of (client_config (client this)) payload)]
              is_retry_not_exchange
              (send_attempt_keeps_engine_view (client this) payload)
              (send_attempt_sends is_exchange is_exchange_transport (fun _ => eq_refl)
                 (client this) payload)
              (Z.to_nat (maxRetries (retryHandler (client this)) + 1)) 0 None
              (record (ESendEvent payload) w))
    as (n & Hle & _ & _ & Hview).
  exists n. split; [done|]. rewrite concat_replicate_one in Hview.
  rewrite Hview, filter_record. simpl. by rewrite <- app_assoc.
Qed.

(** X16. The order of a wrapped call's traffic: when the invocation
    event is enabled, it is delivered, with all the requests its delivery
    takes, before the function is called; the outcome event and its
    requests come after the call.  Each delivery takes at most
    [maxRetries + 1] requests, and every request carries the payload of
    the delivery it belongs to. *)
Theorem wrap_requests_in_order this toolName
    (fn : TParams -> option TMeta -> HostFn App TResult) options params meta w :
  exists (n1 n2 : nat) (outcome_event : MCPEventPayload),
    let a := fragment_of ((fun g => g params meta) <$> getMetadata options) (host w) in
    let invocation_event := payload_of toolName Invocation a None in
    let limit := Z.to_nat (maxRetries (retryHandler (client this)) + 1) in
    (n1 <= limit)%nat /\ (n2 <= limit)%nat
    /\ (event_type outcome_event = Success \/ event_type outcome_event = Failure)
    /\ List.filter is_exchange
         (trace (snd (wrap this toolName fn options params meta w)))
       = List.filter is_exchange (trace w) ++
         (if default true (opt_trackInvocation options)
          then ESendEvent invocation_event
               :: replicate n1 (EFetch (request_of (client_config (client this))
                                          invocation_event))
          else []) ++
         ECallFn
         :: ESendEvent outcome_event
         :: replicate n2 (EFetch (request_of (client_config (client this))
                                    outcome_event)).
Proof.
  destruct (wrap_steps this toolName fn options params meta w)
    as (a & w1 & w2 & Hinv & Hw2 & Hrest).
  destruct (extract_fragment this "metadata" toolName
              ((fun g => g params meta) <$> getMetadata options) w) as [Ha _].
  rewrite Hinv in Ha. cbn [fst] in Ha. injection Ha as ->.
  pose proof (silent_extract is_exchange this "metadata" toolName
                ((fun g => g params meta) <$> getMetadata options)
                (fun _ _ => eq_refl) w) as Hview1.
  rewrite Hinv in Hview1. cbn [snd] in Hview1.
  set (a := fragment_of _ (host w)) in *.
  assert (exists n1 : nat,
             (n1 <= Z.to_nat (maxRetries (retryHandler (client this)) + 1))%nat
             /\ List.filter is_exchange (trace w2)
                = List.filter is_exchange (trace w) ++
                  (if default true (opt_trackInvocation options)
                   then ESendEvent (payload_of toolName Invocation a None)
                        :: replicate n1
                             (EFetch (request_of (client_config (client this))
                                        (payload_of toolName Invocation a None)))
                   else [])) as (n1 & Hn1 & Hview2).
  { subst w2. destruct (default true (opt_trackInvocation options)).
    - destruct (track_exchange this toolName Invocation a None w1) as (n & Hn & Hv).
      exists n. split; [done|]. unfold trackInvocation. by rewrite Hv, Hview1.
    - exists O. split; [lia|]. by rewrite app_nil_r. }
  assert (forall h, List.filter is_exchange (trace (set_host h (record ECallFn w2)))
                    = List.filter is_exchange (trace w2) ++ [ECallFn]) as Hview3
    by (intros h; cbn [trace set_host record]; by rewrite List.filter_app).
  destruct (fn params meta (host w2)) as [[result|e] h3].
  - destruct Hrest as (b & w4 & Hout & Hrun).
    pose proof (silent_extract is_exchange this "output metadata" toolName
                  ((fun g => g result) <$> getOutputMetadata options)
                  (fun _ _ => eq_refl) (set_host h3 (record ECallFn w2))) as Hview4.
    rewrite Hout in Hview4. cbn [snd] in Hview4.
    destruct (track_exchange this toolName Success (Some (mergeMetadata [a; b]))
                (Some (clock h3 - clock (host w))) w4) as (n2 & Hn2 & Hview5).
    exists n1, n2, (payload_of toolName Success (Some (mergeMetadata [a; b]))
                      (Some (clock h3 - clock (host w)))).
    cbv zeta. split_and!; [done|done|by left|].
    rewrite Hrun. cbn [snd]. unfold trackSuccess.
    rewrite Hview5, Hview4, Hview3, Hview2. by rewrite <- !app_assoc.
  - destruct Hrest as (b & w4 & Herr & Hrun).
    pose proof (silent_extract is_exchange this "error metadata" toolName
                  ((fun g => g e) <$> getErrorMetadata options)
                  (fun _ _ => eq_refl) (set_host h3 (record ECallFn w2))) as Hview4.
    rewrite Herr in Hview4. cbn [snd] in Hview4.
    destruct (track_exchange this toolName Failure (Some (mergeMetadata [a; b]))
                (Some (clock h3 - clock (host w))) w4) as (n2 & Hn2 & Hview5).
    exists n1, n2, (payload_of toolName Failure (Some (mergeMetadata [a; b]))
                      (Some (clock h3 - clock (host w)))).
    cbv zeta. split_and!; [done|done|by right|].
    rewrite Hrun. cbn [snd]. unfold trackFailure.
    rewrite Hview5, Hview4, Hview3, Hview2. by rewrite <- !app_assoc.
Qed.

End WrapMore.

(** ** The further properties at sample inputs *)

Lemma execute_stops_at_refusal_witness :
  (execute {| maxRetries := 3; rh_debug := false |} refusing_after_one counting_world
   = (Rejected (http_error unauthorized_response),
      snd (refusing_after_one
             (call_world {| maxRetries := 3; rh_debug := false |} refusing_after_one 0 1
                counting_world)))
   /\ attempts (trace (snd (execute {| maxRetries := 3; rh_debug := false |}
                              refusing_after_one counting_world))) = 2%nat)
  /\ (let op := send_attempt (client sample_tracker)
                  (payload_of "tool" Invocation None None) in
      fst (execute (retryHandler (client sample_tracker)) op (world_on refusing_network))
      = Rejected (http_error unauthorized_response)
      /\ attempts (trace (snd (execute (retryHandler (client sample_tracker)) op
                                 (world_on refusing_network)))) = 2%nat).
Proof.
  split.
  - apply (execute_stops_at_refusal {| maxRetries := 3; rh_debug := false |}
             refusing_after_one counting_world 1
             (http_error unauthorized_response) _ (scripted_keeps_engine_view _)).
    + simpl. lia.
    + intros [|i] Hi; [eexists _, _; split; reflexivity|lia].
    + reflexivity.
    + reflexivity.
  - intros op.
    destruct (execute_stops_at_refusal (retryHandler (client sample_tracker)) op
                (world_on refusing_network) 1
                (http_error unauthorized_response)
                (snd (op (call_world (retryHandler (client sample_tracker)) op 0 1
                            (world_on refusing_network))))
                (send_attempt_keeps_engine_view _ _)) as [Hexec Hcount].
    + simpl. lia.
    + intros [|i] Hi; [eexists _, _; split; vm_compute; reflexivity|lia].
    + vm_compute. reflexivity.
    + reflexivity.
    + split; [by rewrite Hexec|exact Hcount].
Defined.

Lemma execute_waits_bounded_witness :
  In (ESleep 100) (engine_view (trace (world_on healthy_network)))
  \/ 100 <= 100 <= 3000.
Proof.
  apply (execute_waits_bounded sample_retry always_failing (world_on healthy_network)
           100 always_failing_keeps_engine_view).
  vm_compute. right. left. reflexivity.
Defined.

Lemma send_attempt_in_time_witness :
  fst (send_attempt (client sample_tracker) (payload_of "tool" Invocation None None)
         (world_on rejecting_network))
  = Rejected bad_request_error.
Proof.
  refine (send_attempt_in_time (client sample_tracker)
            (payload_of "tool" Invocation None None) (world_on rejecting_network) _).
  vm_compute. discriminate.
Defined.

Lemma sendEvent_first_try_witness :
  fst (sendEvent (client sample_tracker) (payload_of "tool" Invocation None None)
         (world_on healthy_network))
  = Resolved {| ack_ok := true |}.
Proof.
  refine (proj1 (sendEvent_first_try (client sample_tracker)
                   (payload_of "tool" Invocation None None)
                   (world_on healthy_network) 20 ok_response {| ack_ok := true |}
                   _ eq_refl _ eq_refl eq_refl)).
  - vm_compute. discriminate.
  - vm_compute. discriminate.
Defined.

Lemma send_attempt_timer_overflow_witness :
  fst (send_attempt (client (new_MCPTracker overflowing_config))
         (payload_of "tool" Invocation None None) (world_on steady_network))
  = Rejected (Error "Request timeout after 2147483648ms").
Proof.
  refine (proj1 (send_attempt_timer_overflow (client (new_MCPTracker overflowing_config))
                   (payload_of "tool" Invocation None None)
                   (world_on steady_network) _ _)).
  - vm_compute. reflexivity.
  - vm_compute. reflexivity.
Defined.

Lemma sendEvent_always_too_slow_witness :
  fst (sendEvent (client sample_tracker) (payload_of "tool" Invocation None None)
         (world_on slow_network))
  = Rejected (Error "Request timeout after 5000ms").
Proof.
  refine (proj1 (sendEvent_always_too_slow (client sample_tracker)
                   (payload_of "tool" Invocation None None)
                   (world_on slow_network) _ _)).
  - vm_compute. discriminate.
  - intros n. vm_compute. reflexivity.
Defined.

Lemma track_without_retries_witness :
  requests (trace (snd (track (new_MCPTracker no_retry_config) "tool" Invocation
                          None None (world_on dead_network))))
  = [EFetch (request_of (config (new_MCPTracker no_retry_config))
               (payload_of "tool" Invocation None None))].
Proof.
  exact (track_without_retries no_retry_config "tool" Invocation None None
           (world_on dead_network) eq_refl).
Defined.

Lemma track_with_negative_retries_witness :
  fst (track (new_MCPTracker negative_retry_config) "tool" Invocation None None
         (world_on healthy_network))
  = Resolved {| success := false;
                error := Some (Error "Unexpected error in retry handler") |}.
Proof.
  refine (proj1 (track_with_negative_retries negative_retry_config (-1) "tool"
                   Invocation None None (world_on healthy_network) eq_refl _)).
  lia.
Defined.

Lemma track_leaves_no_timer_witness :
  timers (snd (track sample_tracker "tool" Invocation None None world_with_timer))
  = [(2%nat, 60000)].
Proof.
  refine (proj1 (track_leaves_no_timer sample_tracker "tool" Invocation None None
                   world_with_timer _)).
  unfold timers_fresh. simpl. repeat constructor.
Defined.

Lemma silent_without_debug_witness :
  List.filter is_log
    (trace (snd (wrap (new_MCPTracker no_retry_config) "tool" failing_fn
                   broken_options 1 None (world_on dead_network))))
  = [].
Proof.
  refine (proj1 (silent_without_debug no_retry_config "tool" failing_fn
                   broken_options 1 None (world_on dead_network) _)).
  left. reflexivity.
Defined.

Lemma wrap_without_invocation_witness :
  boundary_view
    (trace (snd (wrap sample_tracker "tool" sample_fn untracked_options 1 None
                   (world_on healthy_network))))
  = [ECallFn; ESendEvent (payload_of "tool" Success (Some ∅) (Some 100))].
Proof.
  refine (proj2 (proj2 (wrap_without_invocation sample_tracker "tool" sample_fn
                          untracked_options 1 None (world_on healthy_network) _))).
  reflexivity.
Defined.

(** ** Where outcomes come from *)

Section Outcomes.

Context {App : Type}.
Implicit Types (w : World App).

(** When the loop resolves, it does so with the value of a call it made
    and in the world that call left; that call was made in a world that
    still satisfies whatever the operation, recording and waiting keep. *)
Lemma execute_loop_resolved {T} (this : RetryHandler) (fn : M App T)
    (Inv : World App -> Prop) :
  (forall e w, Inv w -> Inv (record e w)) ->
  (forall d w, Inv w -> Inv (elapse d w)) ->
  (forall w, Inv w -> Inv (snd (fn w))) ->
  forall remaining attempt lastError w v w',
    Inv w ->
    execute_loop this fn remaining attempt lastError w = (Resolved v, w') ->
    exists wl, Inv wl /\ fn wl = (Resolved v, w').
Proof.
  intros Hrec Hela Hfn.
  assert (forall d m a w, Inv w -> Inv (logged d m a w)) as Hlog
    by (intros [] m a w Hw; unfold logged; [by apply Hrec|done]).
  induction remaining as [|remaining IH]; intros attempt lastError w v w' Hw Hexec;
    [done|].
  rewrite execute_loop_step in Hexec.
  pose proof (Hfn (record (EAttempt attempt) w) (Hrec _ _ Hw)) as Hw1.
  destruct (fn (record (EAttempt attempt) w)) as [[v1|e] w1] eqn:Hrun; cbn [snd] in Hw1.
  - injection Hexec as -> ->. exists (record (EAttempt attempt) w).
    split; [by apply Hrec|exact Hrun].
  - destruct (negb (isRetryableError e)); [done|].
    destruct (attempt =? maxRetries this); [done|].
    apply (IH _ _ _ _ _ (Hela _ _ (Hrec _ _ (Hlog _ _ _ _ Hw1))) Hexec).
Qed.

Lemma fetch_fetched req id w :
  fetched (snd (fetch req id w)) = S (fetched w).
Proof.
  unfold fetch. destruct (pending_delay _ _) as [delay|].
  - destruct (delay <? _); [done|]. by destruct (network w (fetched w)).
  - by destruct (network w (fetched w)).
Qed.

(** An attempt sends one request, whatever happens to it. *)
Lemma send_attempt_fetched (this : APIClient) payload w :
  fetched (snd (send_attempt this payload w)) = S (fetched w).
Proof.
  assert (forall d m a, preserves fetched (debugLog (App:=App) d m a)) as Hlog.
  { intros d m a. apply (preserves_effect fetched). intros w0. unfold logged.
    by destruct d. }
  assert (forall e, preserves fetched (on_send_error (App:=App) this e)) as Hcatch.
  { intros e. unfold on_send_error. destruct (String.eqb _ _); [|apply preserves_throw].
    apply (preserves_bind fetched); [apply Hlog|]. intros; apply preserves_throw. }
  unfold send_attempt, bind at 1, debugLog, effect.
  destruct (logged_fields (debug (client_config this)) "Sending event:"
              [LPayload payload] w) as (_ & Hf & _).
  unfold bind at 1, setTimeout, try_finally.
  match goal with
  | |- context [try_catch (send_request this payload ?id) ?h ?w2] =>
      assert (fetched (snd (try_catch (send_request this payload id) h w2))
              = S (fetched w2)) as H;
        [|destruct (try_catch (send_request this payload id) h w2) as [r w3]]
  end.
  - unfold try_catch, send_request, bind at 1.
    match goal with
    | |- context [fetch ?req ?id ?w2] =>
        pose proof (fetch_fetched req id w2) as Hreq;
          destruct (fetch req id w2) as [[response|e] w3]
    end; cbn [snd] in Hreq; rewrite <- Hreq.
    + match goal with
      | |- context [bind ?m ?k w3] =>
          assert (preserves fetched (bind m k)) as Hrest
      end.
      { apply (preserves_bind fetched); [by intros w0|].
        intros _. destruct (negb (resp_ok response)).
        - apply (preserves_bind fetched); [|intros; apply preserves_throw].
          repeat (match goal with |- context [if ?c then _ else _] => destruct c end);
            first [apply Hlog | apply preserves_ret].
        - apply (preserves_bind fetched); [by intros w0|]. intros data.
          apply (preserves_bind fetched); [apply Hlog|]. intros; apply preserves_ret. }
      specialize (Hrest w3).
      match goal with
      | |- context [bind ?m ?k w3] => destruct (bind m k w3) as [[a|e] w4]
      end; cbn [snd] in *; [done|].
      by rewrite (Hcatch e w4).
    + apply Hcatch.
  - cbn [snd] in *. unfold clearTimeout. cbn [fetched record set_timers] in *.
    by rewrite H, Hf.
Qed.

(** An attempt resolves only with the parsed body of an ok response that
    came before the abort timer fired. *)
Lemma send_attempt_resolved (this : APIClient) payload w ack :
  fst (send_attempt this payload w) = Resolved ack ->
  exists latency response,
    network w (fetched w) = Responds latency response
    /\ latency <= timer_delay (timeout (client_config this))
    /\ resp_ok response = true
    /\ resp_json response = Resolved ack.
Proof.
  intros Hres.
  assert (forall e w0, fst (on_send_error (App:=App) this e w0) <> Resolved ack) as Hcatch.
  { intros e w0. unfold on_send_error. by destruct (String.eqb _ _). }
  destruct (Z.lt_ge_cases (timer_delay (timeout (client_config this)))
              (latency_of (network w (fetched w)))) as [Hlate|Hintime].
  { destruct (send_attempt_times_out this payload w Hlate) as (w3 & Hout & _).
    by rewrite Hout in Hres. }
  rewrite (send_attempt_settled this payload w Hintime) in Hres.
  destruct (network w (fetched w)) as [l reason|l response]; [by apply Hcatch in Hres|].
  exists l, response. split; [done|]. split; [exact Hintime|].
  destruct (resp_ok response); cbn [negb] in Hres; [|done]. split; [done|].
  destruct (resp_json response) as [ack'|e]; [by injection Hres as ->|].
  by apply Hcatch in Hres.
Qed.

(** X18. A tracking call reports success only if the server
    acknowledged: when [track] resolves to [{success: true}], the last
    request this call sent was answered, no later than its abort timer
    fired, by an ok response whose body parsed.  (The timer fires after
    the timeout, or after 1 ms when the timeout exceeds [2^31 - 1].) *)
Theorem track_success_means_acknowledged (this : MCPTracker) toolName eventType
    metadata durationMs w result :
  fst (track this toolName eventType metadata durationMs w) = Resolved result ->
  success result = true ->
  exists (n : nat) latency response ack,
    (fetched w <= n)%nat
    /\ fetched (snd (track this toolName eventType metadata durationMs w)) = S n
    /\ network w n = Responds latency response
    /\ latency <= timer_delay (timeout (client_config (client this)))
    /\ resp_ok response = true
    /\ resp_json response = Resolved ack.
Proof.
  intros Hrun Hok.
  rewrite (track_observes fetched)
    by (intros d m a w0; unfold logged; by destruct d).
  unfold track, try_catch, bind at 1 in Hrun. rewrite payload_of_args in Hrun.
  set (payload := payload_of _ _ _ _) in Hrun |- *.
  destruct (sendEvent (client this) payload w) as [[ack|e] w1] eqn:Hsend.
  2:{ unfold bind, debugLog, effect, ret in Hrun. cbn [fst] in Hrun.
      injection Hrun as <-. done. }
  clear Hrun. unfold sendEvent, bind, effect, execute in Hsend.
  destruct (execute_loop_resolved (retryHandler (client this))
              (send_attempt (client this) payload)
              (fun w0 => network w0 = network w /\ (fetched w <= fetched w0)%nat))
    with (remaining := Z.to_nat (maxRetries (retryHandler (client this)) + 1))
         (attempt := 0) (lastError := @None JsError)
         (w := record (ESendEvent payload) w) (v := ack) (w' := w1)
    as (wl & [Hnet Hle] & Hlast); [done|done| |done|done|].
  { intros w0 [Hnet Hle]. rewrite send_attempt_network, send_attempt_fetched.
    split; [done|lia]. }
  destruct (send_attempt_resolved (client this) payload wl ack)
    as (l & response & Hresp & Hintime & Hrok & Hjson); [by rewrite Hlast|].
  pose proof (send_attempt_fetched (client this) payload wl) as Hsent.
  rewrite Hlast in Hsent. cbn [snd] in Hsent.
  rewrite Hnet in Hresp. exists (fetched wl), l, response, ack.
  by split_and!.
Qed.

End Outcomes.

Lemma track_success_means_acknowledged_witness :
  exists (n : nat) latency response ack,
    (0 <= n)%nat
    /\ fetched (snd (track sample_tracker "tool" Invocation None None
                       (world_on healthy_network))) = S n
    /\ healthy_network n = Responds latency response
    /\ latency <= 5000
    /\ resp_ok response = true
    /\ resp_json response = Resolved ack.
Proof.
  apply (track_success_means_acknowledged sample_tracker "tool" Invocation None None
           (world_on healthy_network) {| success := true; error := None |}).
  - vm_compute. reflexivity.
  - reflexivity.
Defined.
